(** * Kafka broker layer of the provisioning backend

    A shallow embedding of package [kafka] (broker construction, the
    consume loop and the batched send) together with the properties its
    specification states about it.

    Conventions.
    - Go strings are [string]; [[]byte] is [list byte].
    - A Go [error] is a value of [error] below; a function returning
      [(T, error)] returns [result T]; a function returning only [error]
      returns [option error] ([None] is Go's [nil]).
    - Functions of the Go standard library and of third-party modules
      that the package calls are fields of the record [Deps]; every
      definition that calls one takes that record as an argument.
    - Calls that touch a reader, a writer, the logger or the handler are
      recorded, in program order, in a list of [event]s. *)

From Stdlib Require Import Strings.String Strings.Ascii Strings.Byte ZArith.
From stdpp Require Import base option list strings gmap.

Local Open Scope string_scope.
Local Open Scope list_scope.

(** ** Errors *)

Module Errors.

(** Package-level error values compared by identity. [io_EOF],
    [context_Canceled] and [context_DeadlineExceeded] belong to the Go
    standard library, the other two are declared by package [kafka]
    with [errors.New]. *)
Inductive sentinel : Type :=
| io_EOF
| context_Canceled
| context_DeadlineExceeded
| DifferentTopicErr
| UnknownSaslMechanismErr.

#[global] Instance sentinel_eq_dec : EqDecision sentinel.
Proof. solve_decision. Defined.

(** An error value: a sentinel, an error made by a library (only its
    message is known and it unwraps to nothing), or the value of
    [fmt.Errorf(pre + "%w" + post, inner)]. *)
Inductive error : Type :=
| Sentinel (s : sentinel)
| foreign (msg : string)
| wrapf (pre : string) (inner : error) (post : string).

Coercion Sentinel : sentinel >-> error.

(** [err.Error()] *)
Fixpoint Error (e : error) : string :=
  match e with
  | Sentinel io_EOF => "EOF"
  | Sentinel context_Canceled => "context canceled"
  | Sentinel context_DeadlineExceeded => "context deadline exceeded"
  | Sentinel DifferentTopicErr => "messages in batch have different topics"
  | Sentinel UnknownSaslMechanismErr => "unknown SASL mechanism"
  | foreign msg => msg
  | wrapf pre inner post => pre +:+ Error inner +:+ post
  end.

(** [errors.Is(err, target)] for a sentinel target: walk the chain of
    [Unwrap] and compare by identity. *)
Fixpoint errors_Is (err : error) (target : sentinel) : bool :=
  match err with
  | Sentinel s => bool_decide (s = target)
  | foreign _ => false
  | wrapf _ inner _ => errors_Is inner target
  end.

Inductive result (A : Type) : Type :=
| Ok (a : A)
| Err (e : error).
Arguments Ok {A} a.
Arguments Err {A} e.

Definition bind {A B} (r : result A) (k : A -> result B) : result B :=
  match r with
  | Ok a => k a
  | Err e => Err e
  end.

Definition is_Err {A} (r : result A) : bool :=
  match r with Ok _ => false | Err _ => true end.

End Errors.
Export Errors.

Declare Scope result_scope.
Delimit Scope result_scope with result.
Notation "x <- r ;; k" := (bind r (fun x => k))
  (at level 100, r at next level, right associativity) : result_scope.

(** ** Message model and codec *)

Definition bytes := list byte.

#[global] Instance byte_eq_dec : EqDecision byte := Byte.byte_eq_dec.

Module Codec.

(** [kafka.Header] of the transport library. *)
Record kafka_Header : Type := mkHeader {
  hKey : string;
  hValue : bytes
}.

(** [kafka.Message] of the transport library. *)
Record kafka_Message : Type := mkMessage {
  kTopic : string;
  kPartition : Z;
  kOffset : Z;
  kHighWaterMark : Z;
  kKey : bytes;
  kValue : bytes;
  kHeaders : list kafka_Header;
  kTime : Z
}.

(** The zero value of [kafka.Message], as [make] fills a slice. *)
Definition kafka_Message_zero : kafka_Message :=
  mkMessage "" 0 0 0 [] [] [] 0.

(** Modelled from the spec: the header of a [GenericMessage], whose
    declaration is not part of the sources at hand. Section 3: headers
    are key/value byte-sequence pairs. *)
Record GenericHeader : Type := mkGenericHeader {
  Key' : bytes;
  Value' : bytes
}.

#[global] Instance GenericHeader_eq_dec : EqDecision GenericHeader.
Proof. solve_decision. Defined.

(** Modelled from the spec: [GenericMessage], whose declaration is not
    part of the sources at hand. Section 3 gives its fields: Topic
    (string), Key and Value (opaque byte sequences, possibly empty) and
    Headers (an ordered sequence). *)
Record GenericMessage : Type := mkGenericMessage {
  Topic : string;
  Key : bytes;
  Value : bytes;
  Headers : list GenericHeader
}.

#[global] Instance GenericMessage_eq_dec : EqDecision GenericMessage.
Proof. solve_decision. Defined.

(** Modelled from the spec: the header part of [KafkaMessage], which is
    not part of the sources at hand. Section 6: a wire header has a
    string key and a bytes value; the key bytes become the string with
    the same bytes, as Go's [string(b)] does. *)
Definition header_to_wire (h : GenericHeader) : kafka_Header :=
  mkHeader (string_of_list_byte (Key' h)) (Value' h).

(** Modelled from the spec: [GenericMessage.KafkaMessage] (the spec's
    [ToWire]) is not part of the sources at hand. Section 4.3: it maps
    Topic/Key/Value/Headers directly and keeps zero-length keys and
    values as empty. Every other field of the wire message is left at
    its zero value. *)
Definition KafkaMessage (m : GenericMessage) : kafka_Message :=
  {| kTopic := Topic m;
     kPartition := 0;
     kOffset := 0;
     kHighWaterMark := 0;
     kKey := Key m;
     kValue := Value m;
     kHeaders := header_to_wire <$> Headers m;
     kTime := 0 |}.

(** Modelled from the spec: the header part of [NewMessageFromKafka],
    which is not part of the sources at hand; the inverse of
    [header_to_wire], as Go's [[]byte(s)] does. *)
Definition header_from_wire (h : kafka_Header) : GenericHeader :=
  mkGenericHeader (list_byte_of_string (hKey h)) (hValue h).

(** Modelled from the spec: [NewMessageFromKafka] (the spec's
    [FromWire]) is not part of the sources at hand. Section 4.3: the
    wire message's topic, key and value are copied verbatim, along with
    any headers. *)
Definition NewMessageFromKafka (km : kafka_Message) : GenericMessage :=
  {| Topic := kTopic km;
     Key := kKey km;
     Value := kValue km;
     Headers := header_from_wire <$> kHeaders km |}.

End Codec.
Export Codec.

(** ** Observable events *)

(** What one call of [r.ReadMessage(ctx)] returned. *)
Inductive read_result : Type :=
| ReadOk (msg : kafka_Message)
| ReadErr (err : error).

Inductive event : Type :=
| EvNewReader (topic : string)
| EvReadMessage (r : read_result)
| EvReadPending
| EvLogWarn (msg : string)
| EvLogTrace (payload : bytes) (msg : string)
| EvHandler (m : GenericMessage)
| EvReaderClose
| EvNewWriter
| EvWriteMessages (msgs : list kafka_Message)
| EvWriterClose.

Definition is_writer_event (e : event) : bool :=
  match e with
  | EvNewWriter | EvWriteMessages _ | EvWriterClose => true
  | _ => false
  end.

(** The batches handed to the transport, in call order. *)
Fixpoint published (tr : list event) : list (list kafka_Message) :=
  match tr with
  | [] => []
  | EvWriteMessages ms :: tr' => ms :: published tr'
  | _ :: tr' => published tr'
  end.

(** The messages the handler was called with, in call order. *)
Fixpoint handled (tr : list event) : list GenericMessage :=
  match tr with
  | [] => []
  | EvHandler m :: tr' => m :: handled tr'
  | _ :: tr' => handled tr'
  end.

(** The warnings written to the logger, in order. *)
Fixpoint warnings (tr : list event) : list string :=
  match tr with
  | [] => []
  | EvLogWarn msg :: tr' => msg :: warnings tr'
  | _ :: tr' => warnings tr'
  end.

(** How many times [r.Close()] was called. *)
Fixpoint reader_closes (tr : list event) : nat :=
  match tr with
  | [] => 0
  | EvReaderClose :: tr' => S (reader_closes tr')
  | _ :: tr' => reader_closes tr'
  end.

(** ** Send *)

Section Send.

(** The transport's answer to [w.WriteMessages(ctx, kMessages...)]. *)
Variable WriteMessages : list kafka_Message -> option error.

(** The [for i, m := range messages] loop of [Send]: [i] is the index
    of the head of [messages], [kMessages] the slice being filled. *)
Fixpoint Send_range (commonTopic : string) (i : nat)
    (messages : list GenericMessage) (kMessages : list kafka_Message)
    : result (list kafka_Message) :=
  match messages with
  | [] => Ok kMessages
  | m :: rest =>
      if negb (String.eqb (Topic m) commonTopic) then Err DifferentTopicErr
      else Send_range commonTopic (S i) rest (<[i := KafkaMessage m]> kMessages)
  end.

(** [Send]: the returned error and the events of the call. The
    deferred [w.Close()] runs on every return that follows
    [b.NewWriter(ctx)]. Message pointers are taken to be non-nil. *)
Definition Send (messages : list GenericMessage) : option error * list event :=
  match messages with
  | [] => (None, [])
  | m0 :: _ =>
      let commonTopic := Topic m0 in
      let kMessages := replicate (length messages) kafka_Message_zero in
      match Send_range commonTopic 0 messages kMessages with
      | Err e => (Some e, [EvNewWriter; EvWriterClose])
      | Ok kMessages =>
          let tr := [EvNewWriter; EvWriteMessages kMessages; EvWriterClose] in
          match WriteMessages kMessages with
          | Some err => (Some (wrapf "cannot send kafka messages(s): " err ""), tr)
          | None => (None, tr)
          end
      end
  end.

End Send.

(** ** Consume *)

Inductive exit_status : Type :=
| Returned   (* the function returned; deferred calls have run *)
| Blocked.   (* the last read has not returned yet *)

Record run (H : Type) : Type := mkRun {
  run_status : exit_status;
  run_state : H;
  run_trace : list event
}.
Arguments mkRun {H} _ _ _.
Arguments run_status {H} _.
Arguments run_state {H} _.
Arguments run_trace {H} _.

Definition is_EOF (r : read_result) : bool :=
  match r with
  | ReadOk _ => false
  | ReadErr err => errors_Is err io_EOF
  end.

(** The reads up to, and without, the first one that reports
    end-of-stream. *)
Fixpoint before_EOF (reads : list read_result) : list read_result :=
  match reads with
  | [] => []
  | r :: rest => if is_EOF r then [] else r :: before_EOF rest
  end.

(** The messages of the successful reads, decoded. *)
Fixpoint delivered (reads : list read_result) : list GenericMessage :=
  match reads with
  | [] => []
  | ReadOk msg :: rest => NewMessageFromKafka msg :: delivered rest
  | ReadErr _ :: rest => delivered rest
  end.

(** The warnings of the failed reads. *)
Fixpoint failures (reads : list read_result) : list string :=
  match reads with
  | [] => []
  | ReadOk _ :: rest => failures rest
  | ReadErr err :: rest =>
      ("Error when reading message: " +:+ Error err) :: failures rest
  end.

(** A trace keeps one message in flight when every handler call is for
    the message of the read just before it and no read starts while a
    message waits for the handler. [waiting] is the message read and not
    yet handled. *)
Fixpoint one_in_flight (waiting : option GenericMessage) (tr : list event) : bool :=
  match tr with
  | [] => bool_decide (waiting = None)
  | EvReadMessage (ReadOk msg) :: tr' =>
      match waiting with
      | None => one_in_flight (Some (NewMessageFromKafka msg)) tr'
      | Some _ => false
      end
  | EvReadMessage (ReadErr _) :: tr' | EvReadPending :: tr' =>
      match waiting with
      | None => one_in_flight None tr'
      | Some _ => false
      end
  | EvHandler m :: tr' =>
      match waiting with
      | Some m' => if decide (m = m') then one_in_flight None tr' else false
      | None => false
      end
  | _ :: tr' => one_in_flight waiting tr'
  end.

Section Consume.

(** The handler is a callback of the application: it is given the
    message and may change the application's state [H]. *)
Variable H : Type.
Variable handler : GenericMessage -> H -> H.

(** The application state after the handler has been given the
    messages [ms], one after the other. *)
Definition handle_all (h : H) (ms : list GenericMessage) : H :=
  foldl (fun h m => handler m h) h ms.

Definition after (evs : list event) (r : run H) : run H :=
  mkRun (run_status r) (run_state r) (evs ++ run_trace r).

(** The [for] loop of [Consume], run against the results the reader
    gives, in order. When the results are used up the loop is left
    waiting in [r.ReadMessage(ctx)]. *)
Fixpoint Consume_loop (reads : list read_result) (h : H) : run H :=
  match reads with
  | [] => mkRun Blocked h [EvReadPending]
  | ReadErr err :: rest =>
      if errors_Is err io_EOF then mkRun Returned h [EvReadMessage (ReadErr err)]
      else
        after [EvReadMessage (ReadErr err);
               EvLogWarn ("Error when reading message: " +:+ Error err)]
              (Consume_loop rest h)
  | ReadOk msg :: rest =>
      let m := NewMessageFromKafka msg in
      after [EvReadMessage (ReadOk msg);
             EvLogTrace (kValue msg)
               ("Received message with key: " +:+ string_of_list_byte (kKey msg));
             EvHandler m]
            (Consume_loop rest (handler m h))
  end.

(** [Consume]: the reader is made, the loop runs, and the deferred
    [r.Close()] runs when the function returns. The reader's
    configuration is taken to be valid ([kafka.NewReader] returns). *)
Definition Consume (topic : string) (reads : list read_result) (h : H) : run H :=
  let r := Consume_loop reads h in
  mkRun (run_status r) (run_state r)
    (EvNewReader topic :: run_trace r ++
       match run_status r with
       | Returned => [EvReaderClose]
       | Blocked => []
       end).

End Consume.

Arguments after {H} evs r.
Arguments handle_all {H} handler h ms.
Arguments Consume_loop {H} handler reads h.
Arguments Consume {H} handler topic reads h.

(** ** Connection security and broker construction *)

Module Security.

(** [scram.Algorithm]: the two values the package uses. *)
Inductive scram_Algorithm : Type :=
| scram_SHA256
| scram_SHA512.

(** An implementation of the interface [sasl.Mechanism]: the struct
    [plain.Mechanism], or the value [scram.Mechanism] returns, which
    holds the algorithm and a client made from the prepared credentials. *)
Inductive sasl_Mechanism : Type :=
| plain_Mechanism (Username Password : string)
| scram_mechanism (algo : scram_Algorithm) (userprep passprep : string).

Definition Certificate := bytes.
Definition CertPool := list Certificate.

(** [x509.NewCertPool()] *)
Definition x509_NewCertPool : CertPool := [].

(** [tls.VersionTLS13] *)
Definition tls_VersionTLS13 : Z := 0x0304.

(** [tls.Config], the fields the package sets. *)
Record tls_Config : Type := mkTLS {
  MinVersion : Z;
  RootCAs : CertPool
}.

(** [time.Second], in nanoseconds. *)
Definition time_Second : Z := 1000000000.

(** [kafka.Dialer], the fields the package sets; a nil pointer or nil
    interface is [None]. *)
Record kafka_Dialer : Type := mkDialer {
  dClientID : string;
  dTimeout : Z;
  dSASLMechanism : option sasl_Mechanism;
  dTLS : option tls_Config
}.

(** [kafka.Transport], the fields the package sets; [tDial] is the
    dialer whose [DialFunc] is stored. *)
Record kafka_Transport : Type := mkTransport {
  tDial : kafka_Dialer;
  tClientID : string;
  tTLS : option tls_Config;
  tSASL : option sasl_Mechanism
}.

Record kafkaBroker : Type := mkBroker {
  dialer : kafka_Dialer;
  transport : kafka_Transport
}.

(** [config.Kafka], the fields the package reads. *)
Record SASLConfig : Type := mkSASLConfig {
  SaslMechanism : string;
  Username : string;
  Password : string
}.

Record KafkaConfig : Type := mkKafkaConfig {
  Brokers : list string;
  CACert : string;
  SASL : SASLConfig
}.

(** What the package calls and the sources at hand do not define: the
    Go standard library ([strings.ToLower], [filepath.Clean],
    [ioutil.ReadFile], [CertPool.AppendCertsFromPEM], which returns
    the pool after the call and its [ok]), the transport
    library ([scram.Mechanism]) and the constant
    [version.KafkaClientID]. *)
Record Deps : Type := mkDeps {
  strings_ToLower : string -> string;
  filepath_Clean : string -> string;
  ioutil_ReadFile : string -> result bytes;
  x509_AppendCertsFromPEM : CertPool -> bytes -> CertPool * bool;
  scram_Mechanism : scram_Algorithm -> string -> string -> result sasl_Mechanism;
  version_KafkaClientID : string
}.

Section WithDeps.

Variable D : Deps.

Definition createSASLMechanism (saslMechanismName username password : string)
    : result sasl_Mechanism :=
  let lowered := strings_ToLower D saslMechanismName in
  if String.eqb lowered "plain" then
    Ok (plain_Mechanism username password)
  else if String.eqb lowered "scram-sha-512" then
    match scram_Mechanism D scram_SHA512 username password with
    | Err err => Err (wrapf "unable to create scram-sha-512 mechanism: " err "")
    | Ok mechanism => Ok mechanism
    end
  else if String.eqb lowered "scram-sha-256" then
    match scram_Mechanism D scram_SHA256 username password with
    | Err err => Err (wrapf "unable to create scram-sha-256 mechanism: " err "")
    | Ok mechanism => Ok mechanism
    end
  else
    Err (wrapf "" UnknownSaslMechanismErr (": " +:+ saslMechanismName)).

(** The first block of [NewKafkaBroker]: TLS when a CA certificate was
    provided. The result of [pool.AppendCertsFromPEM] is dropped. *)
Definition configureTLS (cfg : KafkaConfig) : result (option tls_Config) :=
  if negb (String.eqb (CACert cfg) "") then
    let cleanCAPath := filepath_Clean D (CACert cfg) in
    match ioutil_ReadFile D cleanCAPath with
    | Err err => Err (wrapf "unable to read kafka CA cert: " err "")
    | Ok pemCerts =>
        let pool := fst (x509_AppendCertsFromPEM D x509_NewCertPool pemCerts) in
        Ok (Some {| MinVersion := tls_VersionTLS13; RootCAs := pool |})
    end
  else Ok None.

(** The second block of [NewKafkaBroker]: SASL if a mechanism was
    provided. *)
Definition configureSASL (cfg : KafkaConfig) : result (option sasl_Mechanism) :=
  if negb (String.eqb (SaslMechanism (SASL cfg)) "") then
    match createSASLMechanism (SaslMechanism (SASL cfg))
            (Username (SASL cfg)) (Password (SASL cfg)) with
    | Err err => Err (wrapf "kafka SASL error: " err "")
    | Ok saslMechanism => Ok (Some saslMechanism)
    end
  else Ok None.

Definition NewKafkaBroker (cfg : KafkaConfig) : result kafkaBroker :=
  (tlsConfig <- configureTLS cfg ;;
   saslMechanism <- configureSASL cfg ;;
   let dialer :=
     {| dClientID := version_KafkaClientID D;
        dTimeout := 10 * time_Second;
        dSASLMechanism := saslMechanism;
        dTLS := tlsConfig |} in
   let transport :=
     {| tDial := dialer;
        tClientID := version_KafkaClientID D;
        tTLS := tlsConfig;
        tSASL := saslMechanism |} in
   Ok {| dialer := dialer; transport := transport |})%result.

(** [InitializeKafkaBroker]: [broker] is the package-level variable
    before the call (nil is [None]); the result is the variable after
    the call and the returned error. The assignment
    [broker, err = NewKafkaBroker()] stores whatever was returned. *)
Definition InitializeKafkaBroker (cfg : KafkaConfig) (broker : option kafkaBroker)
    : option kafkaBroker * option error :=
  match NewKafkaBroker cfg with
  | Ok b => (Some b, None)
  | Err err => (None, Some (wrapf "unable to initialize kafka: " err ""))
  end.

End WithDeps.

End Security.
Export Security.

(** ** A concrete library, to run the definitions *)

Module Sample.

(** [strings.ToLower] on a string of ASCII characters. *)
Definition lower_ascii (c : ascii) : ascii :=
  let n := nat_of_ascii c in
  if Nat.leb 65 n && Nat.leb n 90 then ascii_of_nat (n + 32) else c.

Fixpoint ascii_ToLower (s : string) : string :=
  match s with
  | EmptyString => EmptyString
  | String c s' => String (lower_ascii c) (ascii_ToLower s')
  end.

(** Whether [needle] occurs in [s]. *)
Fixpoint occurs (needle s : string) : bool :=
  String.prefix needle s ||
  match s with
  | EmptyString => false
  | String _ s' => occurs needle s'
  end.

(** [AppendCertsFromPEM] on a file without a PEM block: [pem.Decode]
    finds no BEGIN line, the pool is unchanged and [ok] is false. A
    file with a BEGIN line is taken as one certificate. *)
Definition sample_AppendCertsFromPEM (pool : CertPool) (pemCerts : bytes)
    : CertPool * bool :=
  if occurs "-----BEGIN " (string_of_list_byte pemCerts)
  then (pool ++ [pemCerts], true)
  else (pool, false).

(** ASCII control characters, which SASLprep prohibits (RFC 4013, 2.3). *)
Definition is_control (c : ascii) : bool :=
  let n := nat_of_ascii c in Nat.leb n 31 || Nat.eqb n 127.

Fixpoint has_control (s : string) : bool :=
  match s with
  | EmptyString => false
  | String c s' => is_control c || has_control s'
  end.

(** [scram.Mechanism] on ASCII credentials: the client is made unless
    SASLprep rejects the username or the password. *)
Definition sample_scram_Mechanism (algo : scram_Algorithm) (username password : string)
    : result sasl_Mechanism :=
  if has_control username then
    Err (foreign ("Error SASLprepping username '" +:+ username +:+ "': prohibited character"))
  else if has_control password then
    Err (foreign ("Error SASLprepping password '" +:+ password +:+ "': prohibited character"))
  else Ok (scram_mechanism algo username password).

(** [ioutil.ReadFile] over a file system given as a finite map from
    paths to contents. *)
Definition sample_ReadFile (fs : gmap string bytes) (path : string) : result bytes :=
  match fs !! path with
  | Some contents => Ok contents
  | None => Err (foreign ("open " +:+ path +:+ ": no such file or directory"))
  end.

(** The library over a file system; paths are given clean, so
    [filepath.Clean] returns them as they are. *)
Definition sample_deps (fs : gmap string bytes) : Deps :=
  {| strings_ToLower := ascii_ToLower;
     filepath_Clean := fun p => p;
     ioutil_ReadFile := sample_ReadFile fs;
     x509_AppendCertsFromPEM := sample_AppendCertsFromPEM;
     scram_Mechanism := sample_scram_Mechanism;
     version_KafkaClientID := "provisioning" |}.

Definition sample_fs : gmap string bytes :=
  {[ "/etc/kafka/broken.pem" := list_byte_of_string "this is not a certificate" ]}.

Definition sample_config (ca mech user pass : string) : KafkaConfig :=
  {| Brokers := ["localhost:9092"];
     CACert := ca;
     SASL := {| SaslMechanism := mech; Username := user; Password := pass |} |}.

(** A configuration whose CA file is readable and holds no certificate. *)
Definition broken_ca_config : KafkaConfig :=
  sample_config "/etc/kafka/broken.pem" "" "" "".

(** A configuration whose CA file does not exist. *)
Definition missing_ca_config : KafkaConfig :=
  sample_config "/etc/kafka/none.pem" "" "" "".

(** A configuration that names a mechanism the package does not know. *)
Definition gssapi_config : KafkaConfig :=
  sample_config "" "gssapi" "svc" "secret".

(** A user name with a NUL character in front. *)
Definition nul_user : string := String "000" "svc".

(** A broker made earlier, with neither TLS nor SASL. *)
Definition earlier_broker : kafkaBroker :=
  let d := mkDialer "provisioning" (10 * time_Second) None None in
  mkBroker d (mkTransport d "provisioning" None None).

Definition sample_message (topic : string) (payload : string) : GenericMessage :=
  {| Topic := topic; Key := []; Value := list_byte_of_string payload; Headers := [] |}.

(** Two wire messages as a reader gives them. *)
Definition wire_a : kafka_Message :=
  mkMessage "orders" 0 41 43 (list_byte_of_string "k1") (list_byte_of_string "a")
    [mkHeader "trace" (list_byte_of_string "x1")] 1700000000.

Definition wire_b : kafka_Message :=
  mkMessage "orders" 0 42 43 [] (list_byte_of_string "b") [] 1700000001.

(** A handler that keeps the values of the messages it is given. *)
Definition recording_handler (m : GenericMessage) (seen : list bytes) : list bytes :=
  seen ++ [Value m].

(** A message, a read that timed out, end-of-stream, and a message the
    reader would have given afterwards. *)
Definition sample_reads : list read_result :=
  [ReadOk wire_a; ReadErr (foreign "i/o timeout"); ReadErr (Sentinel io_EOF);
   ReadOk wire_b].

(** A transport that is down. *)
Definition refusing_transport (_ : list kafka_Message) : option error :=
  Some (foreign "dial tcp 127.0.0.1:9092: connect: connection refused").

End Sample.
Export Sample.

(** ** Readers and writers *)

Module Channels.

(** [kafka.LastOffset] and [kafka.FirstOffset] of the transport library. *)
Definition kafka_LastOffset : Z := -1.
Definition kafka_FirstOffset : Z := -2.

(** The level a context logger writes at: [newContextLogger] uses
    [logger.Debug()], [newContextErrLogger] uses [logger.Warn()]; both
    add the field [kafka=true]. *)
Inductive log_level : Type :=
| DebugLevel
| WarnLevel.

Definition newContextLogger : log_level := DebugLevel.
Definition newContextErrLogger : log_level := WarnLevel.

(** [kafka.ReaderConfig], the fields the package sets. *)
Record kafka_ReaderConfig : Type := mkReaderConfig {
  rcBrokers : list string;
  rcDialer : kafka_Dialer;
  rcTopic : string;
  rcStartOffset : Z;
  rcLogger : log_level;
  rcErrorLogger : log_level
}.

(** [kafka.Writer], the fields the package sets; [wAddr] holds the
    addresses given to [kafka.TCP]. *)
Record kafka_Writer : Type := mkWriter {
  wAddr : list string;
  wTransport : kafka_Transport;
  wLogger : log_level;
  wErrorLogger : log_level
}.

(** [NewReader]: the configuration handed to [kafka.NewReader]. *)
Definition NewReader (cfg : KafkaConfig) (b : kafkaBroker) (topic : string)
    : kafka_ReaderConfig :=
  {| rcBrokers := Brokers cfg;
     rcDialer := dialer b;
     rcTopic := topic;
     rcStartOffset := kafka_LastOffset;
     rcLogger := newContextLogger;
     rcErrorLogger := newContextErrLogger |}.

(** [NewWriter]: no topic is bound to the writer. *)
Definition NewWriter (cfg : KafkaConfig) (b : kafkaBroker) : kafka_Writer :=
  {| wAddr := Brokers cfg;
     wTransport := transport b;
     wLogger := newContextLogger;
     wErrorLogger := newContextErrLogger |}.

End Channels.
Export Channels.

(** ** Counting the events of a call *)

Fixpoint writer_opens (tr : list event) : nat :=
  match tr with
  | [] => 0
  | EvNewWriter :: tr' => S (writer_opens tr')
  | _ :: tr' => writer_opens tr'
  end.

Fixpoint writer_closes (tr : list event) : nat :=
  match tr with
  | [] => 0
  | EvWriterClose :: tr' => S (writer_closes tr')
  | _ :: tr' => writer_closes tr'
  end.

(** The calls of [r.ReadMessage] that returned. *)
Fixpoint reads_done (tr : list event) : nat :=
  match tr with
  | [] => 0
  | EvReadMessage _ :: tr' => S (reads_done tr')
  | _ :: tr' => reads_done tr'
  end.

(** A read that an iteration of the loop acts on or that ends it: a
    message or end-of-stream, not a failure that is only logged. *)
Definition is_transient (r : read_result) : bool :=
  match r with
  | ReadOk _ => false
  | ReadErr err => negb (errors_Is err io_EOF)
  end.

(** The reads without the failures that are only logged. *)
Fixpoint without_transient (reads : list read_result) : list read_result :=
  match reads with
  | [] => []
  | r :: rest =>
      if is_transient r then without_transient rest
      else r :: without_transient rest
  end.

(** ** More sample values *)

Module MoreSamples.

(** TLS from the sample CA file and PLAIN authentication. *)
Definition secured_config : KafkaConfig :=
  sample_config "/etc/kafka/broken.pem" "Plain" "svc" "secret".

Definition secured_broker : kafkaBroker :=
  let tls := Some (mkTLS tls_VersionTLS13 []) in
  let sasl := Some (plain_Mechanism "svc" "secret") in
  let d := mkDialer "provisioning" (10 * time_Second) sasl tls in
  mkBroker d (mkTransport d "provisioning" tls sasl).

(** A transport that accepts every batch. *)
Definition accepting_transport (_ : list kafka_Message) : option error := None.

(** A transport whose call was cancelled. *)
Definition cancelled_transport (_ : list kafka_Message) : option error :=
  Some (wrapf "write: " context_Canceled "").

End MoreSamples.
Export MoreSamples.

(** ** The sources client *)

Module Sources.

(** Errors of package [sources]. The first three are package-level
    values declared outside the file at hand and compared by identity;
    [NotFoundError] is what [NewNotFoundError(ctx, msg)] returns;
    [client_error] is an error of the HTTP client or of the JSON
    decoder; [wrapped] is the value of
    [fmt.Errorf(pre + "%w" + post, inner)]. *)
Inductive sources_error : Type :=
| SourcesClientErr
| ApplicationTypesFetchUnsuccessful
| MoreThenOneAuthenticationForSourceErr
| NotFoundError (msg : string)
| client_error (msg : string)
| wrapped (pre : string) (inner : sources_error) (post : string).

#[global] Instance sources_error_eq_dec : EqDecision sources_error.
Proof. solve_decision. Defined.

(** [errors.Is(err, target)] for a package-level target. *)
Fixpoint sources_Is (err target : sources_error) : bool :=
  if decide (err = target) then true
  else match err with
       | wrapped _ inner _ => sources_Is inner target
       | _ => false
       end.

Inductive sresult (A : Type) : Type :=
| SOk (a : A)
| SErr (e : sources_error).
Arguments SOk {A} a.
Arguments SErr {A} e.

(** A run-time panic of the Go runtime. *)
Inductive panic : Type :=
| nil_dereference
| index_out_of_range (index len : nat).

(** What a call does: it returns, or it panics. *)
Inductive outcome (A : Type) : Type :=
| Returns (a : A)
| Panics (p : panic).
Arguments Returns {A} a.
Arguments Panics {A} p.

(** [AuthenticationRead] of the generated client, the fields the
    package reads; each is a pointer, nil is [None]. *)
Record AuthenticationRead : Type := mkAuthenticationRead {
  arResourceType : option string;
  arResourceId : option string;
  arUsername : option string
}.

#[global] Instance AuthenticationRead_eq_dec : EqDecision AuthenticationRead.
Proof. solve_decision. Defined.

(** [AuthenticationRead{}] *)
Definition AuthenticationRead_zero : AuthenticationRead :=
  mkAuthenticationRead None None None.

(** The [range] loop of [filterSourceAuthentications]; [kept] is the
    slice [list] built so far. Reading [*auth.ResourceType] of an entry
    whose pointer is nil panics. *)
Fixpoint filter_range (auths kept : list AuthenticationRead)
    : outcome (list AuthenticationRead) :=
  match auths with
  | [] => Returns kept
  | auth :: rest =>
      match arResourceType auth with
      | None => Panics nil_dereference
      | Some resourceType =>
          if String.eqb resourceType "Application"
          then filter_range rest (kept ++ [auth])
          else filter_range rest kept
      end
  end.

(** [filterSourceAuthentications]: the pair it returns, or the panic
    of [*authentications] on a nil pointer, of the loop, or of
    [list[0]] on an empty slice. *)
Definition filterSourceAuthentications (authentications : option (list AuthenticationRead))
    : outcome (AuthenticationRead * option sources_error) :=
  match authentications with
  | None => Panics nil_dereference
  | Some auths =>
      match filter_range auths [] with
      | Panics p => Panics p
      | Returns kept =>
          if Nat.ltb 1 (length kept) then
            Returns (AuthenticationRead_zero,
                     Some MoreThenOneAuthenticationForSourceErr)
          else
            match kept !! 0 with
            | Some auth => Returns (auth, None)
            | None => Panics (index_out_of_range 0 (length kept))
            end
      end
  end.

(** Whether an authentication belongs to an application. *)
Definition for_application (auth : AuthenticationRead) : bool :=
  bool_decide (arResourceType auth = Some "Application").

(** An element of [dataElement.Data]: the fields the package reads. *)
Record ApplicationType : Type := mkApplicationType {
  atId : string;
  atName : string
}.

(** [*http.Response], the fields the package reads. *)
Record http_Response : Type := mkResponse {
  respStatusCode : Z;
  respStatus : string;
  respBody : bytes
}.

(** What [loadAppId] and [GetProvisioningTypeId] do besides returning:
    log calls, the request, decoding the body, closing the body. *)
Inductive sources_event : Type :=
| SrcLogInfo (msg : string)
| SrcLogWarn (msg : string)
| SrcListApplicationTypes
| SrcDecodeBody
| SrcBodyClose.

Fixpoint requests (tr : list sources_event) : nat :=
  match tr with
  | [] => 0
  | SrcListApplicationTypes :: tr' => S (requests tr')
  | _ :: tr' => requests tr'
  end.

Fixpoint body_closes (tr : list sources_event) : nat :=
  match tr with
  | [] => 0
  | SrcBodyClose :: tr' => S (body_closes tr')
  | _ :: tr' => body_closes tr'
  end.

Definition provisioning_name : string := "/insights/platform/provisioning".

(** The [range] loop of [loadAppId]: the first type with the name of
    the provisioning application. *)
Fixpoint find_provisioning (data : list ApplicationType) : option ApplicationType :=
  match data with
  | [] => None
  | t :: rest =>
      if String.eqb (atName t) provisioning_name then Some t
      else find_provisioning rest
  end.

Section WithClient.

(** [parsing.IsHTTPStatus2xx], declared outside the sources at hand. *)
Variable IsHTTPStatus2xx : Z -> bool.

(** [json.NewDecoder(body).Decode(&appTypesData)]: the error, or the
    [Data] of the decoded element. *)
Variable json_Decode : bytes -> sresult (list ApplicationType).

(** [cache.AppTypeId] and [cache.SetAppTypeId], declared outside the
    sources at hand, over the state of the cache. *)
Variable Cache : Type.
Variable cache_AppTypeId : Cache -> option string.
Variable cache_SetAppTypeId : string -> Cache -> Cache.

(** [loadAppId]; [call] is what [c.client.ListApplicationTypes]
    returns. [defer resp.Body.Close()] is reached only after the status
    check has passed. *)
Definition loadAppId (call : sresult http_Response)
    : sresult string * list sources_event :=
  let start :=
    [SrcLogInfo "Fetching the Application Type ID of Provisioning for Sources";
     SrcListApplicationTypes] in
  match call with
  | SErr err =>
      (SErr (wrapped "failed to fetch ApplicationTypes: " err ""),
       start ++ [SrcLogWarn "Failed to fetch ApplicationTypes from sources"])
  | SOk resp =>
      if negb (IsHTTPStatus2xx (respStatusCode resp)) then
        (SErr (wrapped "" ApplicationTypesFetchUnsuccessful
                 (", status: '" +:+ respStatus resp +:+ "'")),
         start ++ [SrcLogWarn
                     ("Sources replied with unexpected status while fetching ApplicationTypes: "
                      +:+ respStatus resp)])
      else
        match json_Decode (respBody resp) with
        | SErr err =>
            (SErr (wrapped "could not unmarshal the response: " err ""),
             start ++ [SrcDecodeBody; SrcBodyClose])
        | SOk data =>
            match find_provisioning data with
            | Some t =>
                (SOk (atId t),
                 start ++ [SrcDecodeBody;
                           SrcLogInfo ("The Application Type ID found: '" +:+ atId t
                                       +:+ "' and it got cached");
                           SrcBodyClose])
            | None =>
                (SErr (NotFoundError
                         "application type 'provisioning' has not been found in types supported by sources"),
                 start ++ [SrcDecodeBody; SrcBodyClose])
            end
        end
  end.

(** [GetProvisioningTypeId]: the result, the cache after the call and
    the events of the call. *)
Definition GetProvisioningTypeId (cache : Cache) (call : sresult http_Response)
    : sresult string * Cache * list sources_event :=
  match cache_AppTypeId cache with
  | Some appTypeId => (SOk appTypeId, cache, [])
  | None =>
      match loadAppId call with
      | (SErr err, evs) => (SErr err, cache, evs)
      | (SOk appTypeId, evs) =>
          (SOk appTypeId, cache_SetAppTypeId appTypeId cache, evs)
      end
  end.

End WithClient.

(** A status check, a decoder and a cache to run the definitions:
    status 200 to 299, a decoder that fails on an empty body and reads
    the same three types from any other, and a cache of one slot. *)
Definition sample_2xx (code : Z) : bool := (200 <=? code)%Z && (code <? 300)%Z.

Definition sample_types : list ApplicationType :=
  [mkApplicationType "1" "/insights/platform/cost-management";
   mkApplicationType "5" "/insights/platform/provisioning";
   mkApplicationType "9" "/insights/platform/provisioning"].

Definition sample_decode (body : bytes) : sresult (list ApplicationType) :=
  if decide (body = []) then SErr (client_error "EOF") else SOk sample_types.

Definition slot_get (c : option string) : option string := c.
Definition slot_set (v : string) (_ : option string) : option string := Some v.

Definition ok_response : sresult http_Response :=
  SOk (mkResponse 200 "200 OK" (list_byte_of_string "{}")).

Definition unavailable_response : sresult http_Response :=
  SOk (mkResponse 503 "503 Service Unavailable" []).

Definition application_auth : AuthenticationRead :=
  mkAuthenticationRead (Some "Application") (Some "42") (Some "arn:aws:iam::1:role/r").

Definition source_auth : AuthenticationRead :=
  mkAuthenticationRead (Some "Source") (Some "7") (Some "user").

Definition untyped_auth : AuthenticationRead :=
  mkAuthenticationRead None (Some "8") (Some "user").

End Sources.
Export Sources.

(** * Properties *)

(** ** Codec *)

Lemma header_roundtrip (h : GenericHeader) :
  header_from_wire (header_to_wire h) = h.
Proof.
  destruct h as [k v]. unfold header_from_wire, header_to_wire. simpl.
  by rewrite list_byte_of_string_of_list_byte.
Qed.

Lemma headers_roundtrip (hs : list GenericHeader) :
  header_from_wire <$> (header_to_wire <$> hs) = hs.
Proof.
  induction hs as [|h hs IH]; [done|].
  rewrite !fmap_cons, header_roundtrip, IH. done.
Qed.

Lemma codec_roundtrip (m : GenericMessage) :
  NewMessageFromKafka (KafkaMessage m) = m.
Proof.
  destruct m as [t k v hs]. unfold NewMessageFromKafka, KafkaMessage. simpl.
  by rewrite headers_roundtrip.
Qed.

(** C5. Decoding the encoding of a message gives the message back, for
    every topic (so for topic "t"), every key and value, empty ones
    included, and every list of headers. *)
Theorem FromWire_ToWire_identity (t : string) (k v : bytes) (h : list GenericHeader) :
  NewMessageFromKafka
    (KafkaMessage {| Topic := t; Key := k; Value := v; Headers := h |})
  = {| Topic := t; Key := k; Value := v; Headers := h |}.
Proof. apply codec_roundtrip. Qed.

Example roundtrip_empty_payload :
  NewMessageFromKafka (KafkaMessage (mkGenericMessage "t" [] [] []))
  = mkGenericMessage "t" [] [] [].
Proof. reflexivity. Qed.

(** ** Send *)

Section SendFacts.

Variable WriteMessages : list kafka_Message -> option error.

Lemma Send_range_same (t : string) (ms : list GenericMessage) :
  forall (done todo : list kafka_Message),
    Forall (fun m => Topic m = t) ms ->
    length todo = length ms ->
    Send_range t (length done) ms (done ++ todo)
    = Ok (done ++ (KafkaMessage <$> ms)).
Proof.
  induction ms as [|m ms IH]; intros done todo Hall Hlen.
  - destruct todo; [done | discriminate].
  - destruct todo as [|z todo]; [discriminate|].
    inversion Hall as [|? ? Hm Hrest]; subst.
    simpl. rewrite String.eqb_refl. simpl.
    rewrite insert_app_r_alt, Nat.sub_diag by lia. simpl.
    replace (S (length done)) with (length (done ++ [KafkaMessage m]))
      by (rewrite length_app; simpl; lia).
    rewrite (cons_middle (KafkaMessage m) done todo), app_assoc.
    rewrite IH; [|done|by inversion Hlen].
    by rewrite <- app_assoc.
Qed.

Lemma Send_range_mixed (t : string) (ms : list GenericMessage) :
  forall (i : nat) (k : list kafka_Message),
    Exists (fun m => Topic m <> t) ms ->
    Send_range t i ms k = Err (Sentinel DifferentTopicErr).
Proof.
  induction ms as [|m ms IH]; intros i k Hex.
  - inversion Hex.
  - simpl. destruct (String.eqb_spec (Topic m) t) as [Heq|Hne]; simpl; [|done].
    apply IH. inversion Hex; [contradiction | done].
Qed.

(** C10. For the empty batch [Send] returns nil and the call has no
    event at all: no writer is made and the transport is not used. *)
Theorem Send_empty_batch :
  Send WriteMessages [] = (None, []).
Proof. reflexivity. Qed.

(** C3. When some message of a non-empty batch has a topic other than
    that of the first message, [Send] returns [DifferentTopicErr] itself,
    and the call makes a writer and closes it without any publish call:
    no message of the batch is handed to the transport. *)
Theorem Send_mixed_topics (m0 m : GenericMessage) (rest : list GenericMessage) :
  m ∈ rest ->
  Topic m <> Topic m0 ->
  fst (Send WriteMessages (m0 :: rest)) = Some (Sentinel DifferentTopicErr)
  /\ published (snd (Send WriteMessages (m0 :: rest))) = []
  /\ snd (Send WriteMessages (m0 :: rest)) = [EvNewWriter; EvWriterClose].
Proof.
  intros Hin Hne. unfold Send.
  rewrite Send_range_mixed; [done|].
  apply Exists_cons_tl, Exists_exists. eauto.
Qed.

(** C7. For a non-empty batch whose messages all have the topic of the
    first one, [Send] makes exactly one publish call; it carries one wire
    message per input message, in input order, with the topic, key, value
    and headers of that input; the error of [Send] is nil when the call
    succeeds and the transport's error wrapped with
    "cannot send kafka messages(s): " when it fails, after that single
    call. *)
Theorem Send_same_topic (m0 : GenericMessage) (rest : list GenericMessage) :
  Forall (fun m => Topic m = Topic m0) rest ->
  published (snd (Send WriteMessages (m0 :: rest)))
    = [KafkaMessage <$> (m0 :: rest)]
  /\ snd (Send WriteMessages (m0 :: rest))
    = [EvNewWriter; EvWriteMessages (KafkaMessage <$> (m0 :: rest)); EvWriterClose]
  /\ (forall (i : nat) (m : GenericMessage),
        (m0 :: rest) !! i = Some m ->
        exists km : kafka_Message,
          (KafkaMessage <$> (m0 :: rest)) !! i = Some km
          /\ kTopic km = Topic m /\ kKey km = Key m /\ kValue km = Value m
          /\ kHeaders km = header_to_wire <$> Headers m
          /\ NewMessageFromKafka km = m)
  /\ fst (Send WriteMessages (m0 :: rest))
    = match WriteMessages (KafkaMessage <$> (m0 :: rest)) with
      | Some err => Some (wrapf "cannot send kafka messages(s): " err "")
      | None => None
      end.
Proof.
  intros Hall.
  assert (Hrun : Send_range (Topic m0) 0 (m0 :: rest)
                   (replicate (length (m0 :: rest)) kafka_Message_zero)
                 = Ok (KafkaMessage <$> (m0 :: rest))).
  { apply (Send_range_same (Topic m0) (m0 :: rest) []).
    - by constructor.
    - simpl. by rewrite length_replicate. }
  unfold Send. rewrite Hrun.
  split; [|split; [|split]].
  - by destruct (WriteMessages _).
  - by destruct (WriteMessages _).
  - intros i m Hi. exists (KafkaMessage m).
    rewrite list_lookup_fmap, Hi. simpl.
    repeat split; try done. apply codec_roundtrip.
  - by destruct (WriteMessages _).
Qed.

End SendFacts.

Lemma Send_mixed_topics_witness :
  fst (Send refusing_transport
         [sample_message "orders" "a"; sample_message "orders" "b";
          sample_message "billing" "c"])
  = Some (Sentinel DifferentTopicErr).
Proof.
  apply (Send_mixed_topics refusing_transport
           (sample_message "orders" "a") (sample_message "billing" "c")
           [sample_message "orders" "b"; sample_message "billing" "c"]).
  - apply list_elem_of_In. simpl. auto.
  - discriminate.
Defined.

Lemma Send_same_topic_witness :
  published (snd (Send refusing_transport
                    [sample_message "orders" "a"; sample_message "orders" "b"]))
  = [[KafkaMessage (sample_message "orders" "a");
      KafkaMessage (sample_message "orders" "b")]].
Proof.
  apply (Send_same_topic refusing_transport
           (sample_message "orders" "a") [sample_message "orders" "b"]).
  repeat constructor.
Defined.

Example Send_transport_failure :
  option_map Error
    (fst (Send refusing_transport [sample_message "orders" "a"]))
  = Some "cannot send kafka messages(s): dial tcp 127.0.0.1:9092: connect: connection refused".
Proof. reflexivity. Qed.

(** ** Consume *)

Lemma handled_app (a b : list event) : handled (a ++ b) = handled a ++ handled b.
Proof. induction a as [|[] a IH]; simpl; by rewrite ?IH. Qed.

Lemma warnings_app (a b : list event) : warnings (a ++ b) = warnings a ++ warnings b.
Proof. induction a as [|[] a IH]; simpl; by rewrite ?IH. Qed.

Lemma reader_closes_app (a b : list event) :
  reader_closes (a ++ b) = reader_closes a + reader_closes b.
Proof. induction a as [|[] a IH]; simpl; by rewrite ?IH. Qed.

Lemma one_in_flight_closing (tr : list event) :
  forall waiting : option GenericMessage,
    one_in_flight waiting (tr ++ [EvReaderClose]) = one_in_flight waiting tr.
Proof.
  induction tr as [|e tr IH]; intros waiting; [done|].
  destruct e as [| [msg|err] | | | | m | | | |]; simpl; try apply IH;
    destruct waiting as [m'|]; try done; try apply IH.
  destruct (decide (m = m')); [apply IH | done].
Qed.

Section ConsumeFacts.

Variable H : Type.
Variable handler : GenericMessage -> H -> H.

(** Take one iteration of the loop apart: case on the head of the
    reads and, for an error, on whether it is end-of-stream. *)
Ltac loop_cases reads IH :=
  induction reads as [|[msg|err] reads IH]; intros h; simpl;
  [ | | destruct (errors_Is err io_EOF) eqn:Heof; simpl ].

Lemma Consume_loop_handled (reads : list read_result) :
  forall h, handled (run_trace (Consume_loop handler reads h))
            = delivered (before_EOF reads).
Proof. loop_cases reads IH; by rewrite ?IH. Qed.

Lemma Consume_loop_state (reads : list read_result) :
  forall h, run_state (Consume_loop handler reads h)
            = handle_all handler h (delivered (before_EOF reads)).
Proof. loop_cases reads IH; by rewrite ?IH. Qed.

Lemma Consume_loop_warnings (reads : list read_result) :
  forall h, warnings (run_trace (Consume_loop handler reads h))
            = failures (before_EOF reads).
Proof. loop_cases reads IH; by rewrite ?IH. Qed.

Lemma Consume_loop_one_in_flight (reads : list read_result) :
  forall h, one_in_flight None (run_trace (Consume_loop handler reads h)) = true.
Proof.
  loop_cases reads IH; try done; try apply IH.
  rewrite decide_True by done. apply IH.
Qed.

Lemma Consume_loop_never_closes (reads : list read_result) :
  forall h, reader_closes (run_trace (Consume_loop handler reads h)) = 0.
Proof. loop_cases reads IH; by rewrite ?IH. Qed.

Lemma Consume_loop_status (reads : list read_result) :
  forall h, run_status (Consume_loop handler reads h)
            = if existsb is_EOF reads then Returned else Blocked.
Proof. loop_cases reads IH; by rewrite ?IH. Qed.

Lemma before_EOF_split (pre post : list read_result) (r : read_result) :
  Forall (fun r => is_EOF r = false) pre ->
  is_EOF r = true ->
  before_EOF (pre ++ r :: post) = pre
  /\ existsb is_EOF (pre ++ r :: post) = true.
Proof.
  intros Hpre Hr. induction Hpre as [|x pre Hx _ [IH1 IH2]]; simpl.
  - by rewrite Hr.
  - by rewrite Hx, IH1, IH2.
Qed.

Lemma Consume_trace (topic : string) (reads : list read_result) (h : H) :
  run_trace (Consume handler topic reads h)
  = EvNewReader topic :: run_trace (Consume_loop handler reads h)
      ++ (if existsb is_EOF reads then [EvReaderClose] else []).
Proof.
  unfold Consume. simpl. rewrite Consume_loop_status.
  by destruct (existsb is_EOF reads).
Qed.

Lemma Consume_delivers_in_order_aux (topic : string) (reads : list read_result) (h : H) :
  handled (run_trace (Consume handler topic reads h))
    = delivered (before_EOF reads)
  /\ run_state (Consume handler topic reads h)
    = handle_all handler h (delivered (before_EOF reads)).
Proof.
  rewrite Consume_trace. simpl. rewrite handled_app, Consume_loop_handled.
  split; [|apply Consume_loop_state].
  destruct (existsb is_EOF reads); simpl; by rewrite app_nil_r.
Qed.

(** C6. Whatever the reader gives, the handler is called exactly with
    the messages of the successful reads that come before the first
    end-of-stream result, each once and in read order; the application
    state is the one those calls leave; every failed read before the
    first end-of-stream is logged as a warning and the loop goes on (the
    reads after it are still delivered); and no read starts while a
    message waits for the handler. *)
Theorem Consume_delivers_in_order (topic : string) (reads : list read_result) (h : H) :
  handled (run_trace (Consume handler topic reads h))
    = delivered (before_EOF reads)
  /\ run_state (Consume handler topic reads h)
    = handle_all handler h (delivered (before_EOF reads))
  /\ warnings (run_trace (Consume handler topic reads h))
    = failures (before_EOF reads)
  /\ one_in_flight None (run_trace (Consume handler topic reads h)) = true.
Proof.
  rewrite Consume_trace. simpl.
  rewrite handled_app, warnings_app, Consume_loop_handled, Consume_loop_warnings.
  split; [|split; [|split]].
  - destruct (existsb is_EOF reads); simpl; by rewrite app_nil_r.
  - apply Consume_loop_state.
  - destruct (existsb is_EOF reads); simpl; by rewrite app_nil_r.
  - destruct (existsb is_EOF reads).
    + rewrite one_in_flight_closing. apply Consume_loop_one_in_flight.
    + rewrite app_nil_r. apply Consume_loop_one_in_flight.
Qed.

(** C8. [Consume] calls [r.Close()] once when it returns, as its last
    action, and not at all while it is still reading, so never twice;
    and when a read reports end-of-stream after reads that did not, it
    returns, and the handler has been called for the messages read
    before that result and for no other. *)
Theorem Consume_releases_reader_once (topic : string) (reads : list read_result) (h : H) :
  reader_closes (run_trace (Consume handler topic reads h))
    = match run_status (Consume handler topic reads h) with
      | Returned => 1
      | Blocked => 0
      end
  /\ (run_status (Consume handler topic reads h) = Returned ->
      last (run_trace (Consume handler topic reads h)) = Some EvReaderClose)
  /\ (forall (pre post : list read_result) (err : error),
        reads = pre ++ ReadErr err :: post ->
        Forall (fun r => is_EOF r = false) pre ->
        errors_Is err io_EOF = true ->
        run_status (Consume handler topic reads h) = Returned
        /\ handled (run_trace (Consume handler topic reads h)) = delivered pre
        /\ run_state (Consume handler topic reads h)
           = handle_all handler h (delivered pre)
        /\ reader_closes (run_trace (Consume handler topic reads h)) = 1).
Proof.
  assert (Hstatus : run_status (Consume handler topic reads h)
                    = if existsb is_EOF reads then Returned else Blocked)
    by apply Consume_loop_status.
  assert (Hcloses : reader_closes (run_trace (Consume handler topic reads h))
                    = if existsb is_EOF reads then 1 else 0).
  { rewrite Consume_trace. simpl.
    rewrite reader_closes_app, Consume_loop_never_closes.
    by destruct (existsb is_EOF reads). }
  split; [|split].
  - rewrite Hstatus, Hcloses. by destruct (existsb is_EOF reads).
  - rewrite Hstatus, Consume_trace.
    destruct (existsb is_EOF reads); [intros _ | discriminate].
    rewrite app_comm_cons. apply last_snoc.
  - intros pre post err -> Hpre Herr.
    destruct (before_EOF_split pre post (ReadErr err) Hpre Herr) as [Hb He].
    destruct (Consume_delivers_in_order_aux topic (pre ++ ReadErr err :: post) h)
      as [Hh Hs].
    rewrite Hstatus, Hcloses, He, Hh, Hs, Hb. done.
Qed.

(** C2, at its failing input. A read that returns the cancellation
    error is not taken as end-of-stream: the loop logs it and reads
    again. After [n] such results [Consume] has not returned, the reader
    has not been closed and [n] warnings have been logged; and a message
    read after a cancellation error is still given to the handler. *)
Theorem Consume_cancellation_keeps_reading (topic : string) (n : nat)
    (msg : kafka_Message) (h : H) :
  let cancelled := ReadErr (Sentinel context_Canceled) in
  run_status (Consume handler topic (replicate n cancelled) h) = Blocked
  /\ reader_closes (run_trace (Consume handler topic (replicate n cancelled) h)) = 0
  /\ warnings (run_trace (Consume handler topic (replicate n cancelled) h))
     = replicate n "Error when reading message: context canceled"
  /\ handled (run_trace
       (Consume handler topic [cancelled; ReadOk msg; ReadErr (Sentinel io_EOF)] h))
     = [NewMessageFromKafka msg].
Proof.
  intros cancelled.
  assert (Hnone : existsb is_EOF (replicate n cancelled) = false)
    by (induction n; [done | simpl; done]).
  assert (Hpre : before_EOF (replicate n cancelled) = replicate n cancelled)
    by (induction n as [|n IH]; [done | simpl; by rewrite IH]).
  split; [|split; [|split]].
  - unfold Consume. simpl. by rewrite Consume_loop_status, Hnone.
  - rewrite Consume_trace, Hnone. simpl.
    by rewrite app_nil_r, Consume_loop_never_closes.
  - rewrite Consume_trace, Hnone. simpl.
    rewrite app_nil_r, Consume_loop_warnings, Hpre.
    clear. induction n as [|n IH]; [done | simpl; by rewrite IH].
  - reflexivity.
Qed.

End ConsumeFacts.

Lemma Consume_releases_reader_once_witness :
  run_status (Consume recording_handler "orders" sample_reads []) = Returned
  /\ handled (run_trace (Consume recording_handler "orders" sample_reads []))
     = [NewMessageFromKafka wire_a]
  /\ run_state (Consume recording_handler "orders" sample_reads [])
     = [list_byte_of_string "a"]
  /\ reader_closes (run_trace (Consume recording_handler "orders" sample_reads [])) = 1.
Proof.
  apply (proj2 (proj2 (Consume_releases_reader_once _ recording_handler
                         "orders" sample_reads []))
           [ReadOk wire_a; ReadErr (foreign "i/o timeout")]
           [ReadOk wire_b] (Sentinel io_EOF)).
  - reflexivity.
  - repeat constructor.
  - reflexivity.
Defined.

Example Consume_survives_transient_error :
  run_trace (Consume recording_handler "orders"
               [ReadErr (foreign "i/o timeout"); ReadOk wire_b; ReadErr (Sentinel io_EOF)] [])
  = [EvNewReader "orders";
     EvReadMessage (ReadErr (foreign "i/o timeout"));
     EvLogWarn "Error when reading message: i/o timeout";
     EvReadMessage (ReadOk wire_b);
     EvLogTrace (list_byte_of_string "b") "Received message with key: ";
     EvHandler (NewMessageFromKafka wire_b);
     EvReadMessage (ReadErr (Sentinel io_EOF));
     EvReaderClose].
Proof. reflexivity. Qed.

Example Consume_wrapped_end_of_stream :
  run_status (Consume recording_handler "orders"
                [ReadErr (wrapf "fetching message: " io_EOF "")] []) = Returned.
Proof. reflexivity. Qed.

(** ** Broker construction *)

Lemma append_empty_r (s : string) : s +:+ "" = s.
Proof.
  induction s as [|c s IH]; [done|].
  change (String c (s +:+ "") = String c s). by rewrite IH.
Qed.

Section SecurityFacts.

Variable D : Deps.

Lemma configureTLS_read_error (cfg : KafkaConfig) (err : error) :
  CACert cfg <> "" ->
  ioutil_ReadFile D (filepath_Clean D (CACert cfg)) = Err err ->
  configureTLS D cfg = Err (wrapf "unable to read kafka CA cert: " err "").
Proof.
  intros Hca Hread. unfold configureTLS.
  apply String.eqb_neq in Hca. by rewrite Hca, Hread.
Qed.

Lemma configureTLS_read_ok (cfg : KafkaConfig) (pem : bytes) :
  CACert cfg <> "" ->
  ioutil_ReadFile D (filepath_Clean D (CACert cfg)) = Ok pem ->
  configureTLS D cfg
  = Ok (Some {| MinVersion := tls_VersionTLS13;
                RootCAs := fst (x509_AppendCertsFromPEM D x509_NewCertPool pem) |}).
Proof.
  intros Hca Hread. unfold configureTLS.
  apply String.eqb_neq in Hca. by rewrite Hca, Hread.
Qed.

Lemma createSASLMechanism_unknown (name username password : string) :
  strings_ToLower D name <> "plain" ->
  strings_ToLower D name <> "scram-sha-512" ->
  strings_ToLower D name <> "scram-sha-256" ->
  createSASLMechanism D name username password
  = Err (wrapf "" UnknownSaslMechanismErr (": " +:+ name)).
Proof.
  intros H1 H2 H3. unfold createSASLMechanism.
  apply String.eqb_neq in H1, H2, H3. by rewrite H1, H2, H3.
Qed.

(** C1, as the code has it. With a CA path configured, a file that
    cannot be read makes construction fail with the read error wrapped
    in "unable to read kafka CA cert: ". A file that can be read never
    makes it fail: whatever the parser reports, the TLS configuration
    asks for TLS 1.3 and trusts the certificates the parser added to an
    empty pool, and construction fails exactly when the SASL step does. *)
Theorem NewKafkaBroker_CA_certificate (cfg : KafkaConfig) :
  CACert cfg <> "" ->
  (forall err : error,
      ioutil_ReadFile D (filepath_Clean D (CACert cfg)) = Err err ->
      NewKafkaBroker D cfg = Err (wrapf "unable to read kafka CA cert: " err ""))
  /\ (forall pem : bytes,
      ioutil_ReadFile D (filepath_Clean D (CACert cfg)) = Ok pem ->
      let tls := {| MinVersion := tls_VersionTLS13;
                    RootCAs := fst (x509_AppendCertsFromPEM D x509_NewCertPool pem) |} in
      is_Err (NewKafkaBroker D cfg) = is_Err (configureSASL D cfg)
      /\ forall b : kafkaBroker,
           NewKafkaBroker D cfg = Ok b ->
           dTLS (dialer b) = Some tls /\ tTLS (transport b) = Some tls).
Proof.
  intros Hca. split.
  - intros err Hread. unfold NewKafkaBroker.
    by rewrite (configureTLS_read_error cfg err Hca Hread).
  - intros pem Hread tls. unfold NewKafkaBroker.
    rewrite (configureTLS_read_ok cfg pem Hca Hread). simpl.
    destruct (configureSASL D cfg) as [sasl|e]; simpl; split; try done.
    intros b [= <-]. done.
Qed.

(** C4, as the code has it. A name whose lowercase form is "plain"
    gives the PLAIN mechanism with the given credentials. A name whose
    lowercase form is "scram-sha-512" or "scram-sha-256" gives what the
    SCRAM library makes of the credentials: its mechanism, or its error
    wrapped in "unable to create scram-sha-N mechanism: ". Any other
    name gives an error that wraps [UnknownSaslMechanismErr] and reads
    "unknown SASL mechanism: " followed by the name as given; when that
    name is the configured, non-empty one and the TLS step has passed,
    broker construction fails with that error wrapped in
    "kafka SASL error: ". *)
Theorem createSASLMechanism_by_name (name username password : string) :
  (strings_ToLower D name = "plain" ->
     createSASLMechanism D name username password
     = Ok (plain_Mechanism username password))
  /\ (strings_ToLower D name = "scram-sha-512" ->
     createSASLMechanism D name username password
     = match scram_Mechanism D scram_SHA512 username password with
       | Ok mechanism => Ok mechanism
       | Err err => Err (wrapf "unable to create scram-sha-512 mechanism: " err "")
       end)
  /\ (strings_ToLower D name = "scram-sha-256" ->
     createSASLMechanism D name username password
     = match scram_Mechanism D scram_SHA256 username password with
       | Ok mechanism => Ok mechanism
       | Err err => Err (wrapf "unable to create scram-sha-256 mechanism: " err "")
       end)
  /\ (strings_ToLower D name <> "plain" ->
      strings_ToLower D name <> "scram-sha-512" ->
      strings_ToLower D name <> "scram-sha-256" ->
      (exists e : error,
          createSASLMechanism D name username password = Err e
          /\ errors_Is e UnknownSaslMechanismErr = true
          /\ Error e = "unknown SASL mechanism: " +:+ name)
      /\ forall (cfg : KafkaConfig) (tls : option tls_Config),
           name <> "" ->
           SASL cfg = mkSASLConfig name username password ->
           configureTLS D cfg = Ok tls ->
           exists e : error,
             NewKafkaBroker D cfg = Err e
             /\ errors_Is e UnknownSaslMechanismErr = true
             /\ Error e = "kafka SASL error: unknown SASL mechanism: " +:+ name).
Proof.
  split; [|split; [|split]].
  - intros Hlow. unfold createSASLMechanism. by rewrite Hlow.
  - intros Hlow. unfold createSASLMechanism. rewrite Hlow. simpl.
    by destruct (scram_Mechanism D scram_SHA512 username password).
  - intros Hlow. unfold createSASLMechanism. rewrite Hlow. simpl.
    by destruct (scram_Mechanism D scram_SHA256 username password).
  - intros H1 H2 H3.
    pose proof (createSASLMechanism_unknown name username password H1 H2 H3) as Hun.
    split.
    + eexists. split; [exact Hun|]. split; reflexivity.
    + intros cfg tls Hname Hsasl Htls.
      eexists. split; [|split].
      * unfold NewKafkaBroker, configureSASL. rewrite Htls, Hsasl. simpl.
        apply String.eqb_neq in Hname. rewrite Hname, Hun. simpl. reflexivity.
      * reflexivity.
      * simpl. rewrite append_empty_r. reflexivity.
Qed.

(** C9. When [NewKafkaBroker] returns an error, [InitializeKafkaBroker]
    leaves the package-level broker nil, whatever it held before, and
    returns the error wrapped in "unable to initialize kafka: ". *)
Theorem InitializeKafkaBroker_failure_overwrites_broker
    (cfg : KafkaConfig) (old : option kafkaBroker) (err : error) :
  NewKafkaBroker D cfg = Err err ->
  InitializeKafkaBroker D cfg old
  = (None, Some (wrapf "unable to initialize kafka: " err "")).
Proof. intros Hnew. unfold InitializeKafkaBroker. by rewrite Hnew. Qed.

End SecurityFacts.

(** C1, refuted as stated: the file is there and can be read, no
    certificate is found in it, and a broker is returned all the same,
    with an empty trust pool. *)
Lemma NewKafkaBroker_unparsed_CA_counterexample :
  CACert broken_ca_config <> ""
  /\ ioutil_ReadFile (sample_deps sample_fs)
       (filepath_Clean (sample_deps sample_fs) (CACert broken_ca_config))
     = Ok (list_byte_of_string "this is not a certificate")
  /\ x509_AppendCertsFromPEM (sample_deps sample_fs) x509_NewCertPool
       (list_byte_of_string "this is not a certificate")
     = ([], false)
  /\ is_Err (NewKafkaBroker (sample_deps sample_fs) broken_ca_config) = false
  /\ exists b : kafkaBroker,
       NewKafkaBroker (sample_deps sample_fs) broken_ca_config = Ok b
       /\ dTLS (dialer b)
          = Some {| MinVersion := tls_VersionTLS13; RootCAs := [] |}.
Proof.
  split; [discriminate|].
  split; [reflexivity|].
  split; [reflexivity|].
  split; [reflexivity|].
  eexists. split; reflexivity.
Qed.

Lemma NewKafkaBroker_CA_certificate_witness :
  NewKafkaBroker (sample_deps sample_fs) missing_ca_config
    = Err (wrapf "unable to read kafka CA cert: "
             (foreign "open /etc/kafka/none.pem: no such file or directory") "")
  /\ is_Err (NewKafkaBroker (sample_deps sample_fs) broken_ca_config) = false.
Proof.
  split.
  - apply (proj1 (NewKafkaBroker_CA_certificate (sample_deps sample_fs)
                    missing_ca_config ltac:(discriminate))).
    reflexivity.
  - apply (proj2 (NewKafkaBroker_CA_certificate (sample_deps sample_fs)
                    broken_ca_config ltac:(discriminate))
             (list_byte_of_string "this is not a certificate")).
    reflexivity.
Defined.

(** C4, refuted as stated: the name is a recognised one, and the
    mechanism is not made, because the SCRAM library rejects the user
    name. *)
Lemma createSASLMechanism_scram_counterexample :
  strings_ToLower (sample_deps sample_fs) "SCRAM-SHA-512" = "scram-sha-512"
  /\ is_Err (createSASLMechanism (sample_deps sample_fs)
               "SCRAM-SHA-512" nul_user "secret") = true
  /\ option_map Error
       (snd (InitializeKafkaBroker (sample_deps sample_fs)
               (sample_config "" "SCRAM-SHA-512" nul_user "secret") None))
     = Some ("unable to initialize kafka: kafka SASL error: "
             +:+ "unable to create scram-sha-512 mechanism: "
             +:+ "Error SASLprepping username '" +:+ nul_user
             +:+ "': prohibited character").
Proof. split; [reflexivity|]. split; reflexivity. Qed.

Lemma createSASLMechanism_by_name_witness :
  createSASLMechanism (sample_deps sample_fs) "PLAIN" "svc" "secret"
    = Ok (plain_Mechanism "svc" "secret")
  /\ createSASLMechanism (sample_deps sample_fs) "Scram-SHA-512" "svc" "secret"
    = Ok (scram_mechanism scram_SHA512 "svc" "secret")
  /\ exists e : error,
       NewKafkaBroker (sample_deps sample_fs) gssapi_config = Err e
       /\ errors_Is e UnknownSaslMechanismErr = true
       /\ Error e = "kafka SASL error: unknown SASL mechanism: gssapi".
Proof.
  split; [|split].
  - exact (proj1 (createSASLMechanism_by_name (sample_deps sample_fs)
                    "PLAIN" "svc" "secret") eq_refl).
  - exact (proj1 (proj2 (createSASLMechanism_by_name (sample_deps sample_fs)
                           "Scram-SHA-512" "svc" "secret")) eq_refl).
  - destruct (createSASLMechanism_by_name (sample_deps sample_fs)
                "gssapi" "svc" "secret") as (_ & _ & _ & Hunknown).
    destruct Hunknown as [_ Hbroker]; [vm_compute; discriminate ..|].
    apply (Hbroker gssapi_config None); [discriminate | reflexivity | reflexivity].
Defined.

Lemma InitializeKafkaBroker_failure_overwrites_broker_witness :
  InitializeKafkaBroker (sample_deps sample_fs) gssapi_config (Some earlier_broker)
  = (None,
     Some (wrapf "unable to initialize kafka: "
             (wrapf "kafka SASL error: "
                (wrapf "" UnknownSaslMechanismErr ": gssapi") "") "")).
Proof.
  apply (InitializeKafkaBroker_failure_overwrites_broker (sample_deps sample_fs)
           gssapi_config (Some earlier_broker)).
  reflexivity.
Defined.

Example createSASLMechanism_mixed_case :
  createSASLMechanism (sample_deps sample_fs) "ScRaM-ShA-256" "svc" "secret"
  = Ok (scram_mechanism scram_SHA256 "svc" "secret").
Proof. reflexivity. Qed.

Example InitializeKafkaBroker_success_stores_broker :
  InitializeKafkaBroker (sample_deps sample_fs) (sample_config "" "" "" "") None
  = (Some earlier_broker, None).
Proof. reflexivity. Qed.

(** * Further properties of the code *)

(** ** Broker construction, readers and writers *)

Section ConstructionFacts.

Variable D : Deps.

Lemma NewKafkaBroker_inv (cfg : KafkaConfig) (b : kafkaBroker) :
  NewKafkaBroker D cfg = Ok b ->
  exists (tls : option tls_Config) (sasl : option sasl_Mechanism),
    configureTLS D cfg = Ok tls
    /\ configureSASL D cfg = Ok sasl
    /\ dialer b = mkDialer (version_KafkaClientID D) (10 * time_Second) sasl tls
    /\ transport b = mkTransport (dialer b) (version_KafkaClientID D) tls sasl.
Proof.
  unfold NewKafkaBroker.
  destruct (configureTLS D cfg) as [tls|e]; simpl; [|discriminate].
  destruct (configureSASL D cfg) as [sasl|e]; simpl; [|discriminate].
  intros [= <-]. exists tls, sasl. done.
Qed.

Lemma configureTLS_cases (cfg : KafkaConfig) :
  (CACert cfg = "" /\ configureTLS D cfg = Ok None)
  \/ (CACert cfg <> ""
      /\ exists inner : error,
           ioutil_ReadFile D (filepath_Clean D (CACert cfg)) = Err inner
           /\ configureTLS D cfg
              = Err (wrapf "unable to read kafka CA cert: " inner ""))
  \/ (CACert cfg <> ""
      /\ exists pem : bytes,
           ioutil_ReadFile D (filepath_Clean D (CACert cfg)) = Ok pem
           /\ configureTLS D cfg
              = Ok (Some {| MinVersion := tls_VersionTLS13;
                            RootCAs := fst (x509_AppendCertsFromPEM D
                                              x509_NewCertPool pem) |})).
Proof.
  unfold configureTLS.
  destruct (String.eqb_spec (CACert cfg) "") as [Hca|Hca]; simpl; [by left|].
  right. destruct (ioutil_ReadFile D _) as [pem|inner].
  - right. split; [done|]. by exists pem.
  - left. split; [done|]. by exists inner.
Qed.

Lemma configureSASL_cases (cfg : KafkaConfig) :
  (SaslMechanism (SASL cfg) = "" /\ configureSASL D cfg = Ok None)
  \/ (SaslMechanism (SASL cfg) <> ""
      /\ exists inner : error,
           createSASLMechanism D (SaslMechanism (SASL cfg))
             (Username (SASL cfg)) (Password (SASL cfg)) = Err inner
           /\ configureSASL D cfg = Err (wrapf "kafka SASL error: " inner ""))
  \/ (SaslMechanism (SASL cfg) <> ""
      /\ exists m : sasl_Mechanism,
           createSASLMechanism D (SaslMechanism (SASL cfg))
             (Username (SASL cfg)) (Password (SASL cfg)) = Ok m
           /\ configureSASL D cfg = Ok (Some m)).
Proof.
  unfold configureSASL.
  destruct (String.eqb_spec (SaslMechanism (SASL cfg)) "") as [Hn|Hn]; simpl;
    [by left|].
  right. destruct (createSASLMechanism D _ _ _) as [m|inner].
  - right. split; [done|]. by exists m.
  - left. split; [done|]. by exists inner.
Qed.

(** X1. Every reader and every writer made from a constructed broker
    use the same TLS configuration, the same SASL mechanism and the same
    client identifier; the writer's transport dials through the very
    dialer the reader uses, with a timeout of ten seconds; both connect
    to the configured broker addresses, and a reader starts at the most
    recent offset of the topic it was asked for. *)
Theorem constructed_broker_channels_share_security
    (cfg : KafkaConfig) (b : kafkaBroker) (topic : string) :
  NewKafkaBroker D cfg = Ok b ->
  dTLS (rcDialer (NewReader cfg b topic)) = tTLS (wTransport (NewWriter cfg b))
  /\ dSASLMechanism (rcDialer (NewReader cfg b topic))
     = tSASL (wTransport (NewWriter cfg b))
  /\ dClientID (rcDialer (NewReader cfg b topic))
     = tClientID (wTransport (NewWriter cfg b))
  /\ tDial (wTransport (NewWriter cfg b)) = rcDialer (NewReader cfg b topic)
  /\ dTimeout (rcDialer (NewReader cfg b topic)) = 10000000000%Z
  /\ rcBrokers (NewReader cfg b topic) = wAddr (NewWriter cfg b)
  /\ rcTopic (NewReader cfg b topic) = topic
  /\ rcStartOffset (NewReader cfg b topic) = kafka_LastOffset.
Proof.
  intros Hnew.
  destruct (NewKafkaBroker_inv cfg b Hnew) as (tls & sasl & _ & _ & Hd & Ht).
  simpl. rewrite Ht, Hd. simpl. done.
Qed.

(** X2. Broker construction succeeds exactly when the CA step and the
    SASL step both pass: no CA path is configured or the file at the
    cleaned path can be read, and no mechanism name is configured or
    [createSASLMechanism] accepts the configured name and credentials. *)
Theorem NewKafkaBroker_succeeds_iff (cfg : KafkaConfig) :
  is_Err (NewKafkaBroker D cfg) = false
  <-> (CACert cfg = ""
       \/ exists pem : bytes,
            ioutil_ReadFile D (filepath_Clean D (CACert cfg)) = Ok pem)
      /\ (SaslMechanism (SASL cfg) = ""
          \/ exists m : sasl_Mechanism,
               createSASLMechanism D (SaslMechanism (SASL cfg))
                 (Username (SASL cfg)) (Password (SASL cfg)) = Ok m).
Proof.
  unfold NewKafkaBroker.
  destruct (configureTLS_cases cfg)
    as [[Hca ->] | [[Hca (inner & Hread & ->)] | [Hca (pem & Hread & ->)]]];
  destruct (configureSASL_cases cfg)
    as [[Hn ->] | [[Hn (e & Hmech & ->)] | [Hn (m & Hmech & ->)]]];
  simpl; split; try done; try (intros _; split; eauto; fail).
  all: intros [Htls Hsasl].
  all: try (destruct Hsasl as [Hsasl | [m' Hsasl]]; [done | congruence]).
  all: destruct Htls as [Htls | [pem' Htls]]; [done | congruence].
Qed.

(** X3. A constructed broker has a TLS configuration exactly when a CA
    path is configured; that configuration never allows less than
    TLS 1.3, and its trust pool holds what the parser added to an empty
    pool from the file at the cleaned path, and nothing else. *)
Theorem NewKafkaBroker_TLS_iff_CA (cfg : KafkaConfig) (b : kafkaBroker) :
  NewKafkaBroker D cfg = Ok b ->
  (dTLS (dialer b) = None <-> CACert cfg = "")
  /\ forall tls : tls_Config,
       dTLS (dialer b) = Some tls ->
       MinVersion tls = tls_VersionTLS13
       /\ exists pem : bytes,
            ioutil_ReadFile D (filepath_Clean D (CACert cfg)) = Ok pem
            /\ RootCAs tls
               = fst (x509_AppendCertsFromPEM D x509_NewCertPool pem).
Proof.
  intros Hnew.
  destruct (NewKafkaBroker_inv cfg b Hnew) as (tls0 & sasl & Htls & _ & Hd & _).
  rewrite Hd. simpl.
  destruct (configureTLS_cases cfg)
    as [[Hca Hc] | [[Hca (inner & Hread & Hc)] | [Hca (pem & Hread & Hc)]]];
    rewrite Hc in Htls; [| discriminate |]; injection Htls as <-.
  - split; [done|]. discriminate.
  - split; [split; [discriminate | done]|].
    intros tls [= <-]. simpl. split; [done|]. by exists pem.
Qed.

(** X4. A constructed broker has a SASL mechanism exactly when a
    mechanism name is configured; the mechanism is the one
    [createSASLMechanism] made for the configured name and credentials,
    and for a name that lowercases to "plain" it carries the configured
    user name and password unchanged. *)
Theorem NewKafkaBroker_SASL_iff_mechanism (cfg : KafkaConfig) (b : kafkaBroker) :
  NewKafkaBroker D cfg = Ok b ->
  (dSASLMechanism (dialer b) = None <-> SaslMechanism (SASL cfg) = "")
  /\ (forall m : sasl_Mechanism,
        dSASLMechanism (dialer b) = Some m ->
        createSASLMechanism D (SaslMechanism (SASL cfg))
          (Username (SASL cfg)) (Password (SASL cfg)) = Ok m)
  /\ (SaslMechanism (SASL cfg) <> "" ->
      strings_ToLower D (SaslMechanism (SASL cfg)) = "plain" ->
      dSASLMechanism (dialer b)
      = Some (plain_Mechanism (Username (SASL cfg)) (Password (SASL cfg)))).
Proof.
  intros Hnew.
  destruct (NewKafkaBroker_inv cfg b Hnew) as (tls & sasl0 & _ & Hsasl & Hd & _).
  rewrite Hd. simpl.
  destruct (configureSASL_cases cfg)
    as [[Hn Hc] | [[Hn (e & Hmech & Hc)] | [Hn (m & Hmech & Hc)]]];
    rewrite Hc in Hsasl; [| discriminate |]; injection Hsasl as <-.
  - split; [done|]. split; [discriminate | done].
  - split; [split; [discriminate | done]|].
    split; [by intros m' [= <-]|].
    intros _ Hlow. f_equal.
    unfold createSASLMechanism in Hmech. rewrite Hlow in Hmech. simpl in Hmech.
    congruence.
Qed.

(** X5. When broker construction fails, the error is of one of two
    kinds: the error of reading the configured CA file, wrapped in
    "unable to read kafka CA cert: ", or the error of
    [createSASLMechanism] for the configured mechanism name, wrapped in
    "kafka SASL error: ", and the second only when the CA step has
    passed. *)
Theorem NewKafkaBroker_error_kinds (cfg : KafkaConfig) (e : error) :
  NewKafkaBroker D cfg = Err e ->
  (CACert cfg <> ""
   /\ exists inner : error,
        ioutil_ReadFile D (filepath_Clean D (CACert cfg)) = Err inner
        /\ e = wrapf "unable to read kafka CA cert: " inner "")
  \/ (SaslMechanism (SASL cfg) <> ""
      /\ (CACert cfg = ""
          \/ exists pem : bytes,
               ioutil_ReadFile D (filepath_Clean D (CACert cfg)) = Ok pem)
      /\ exists inner : error,
           createSASLMechanism D (SaslMechanism (SASL cfg))
             (Username (SASL cfg)) (Password (SASL cfg)) = Err inner
           /\ e = wrapf "kafka SASL error: " inner "").
Proof.
  unfold NewKafkaBroker.
  destruct (configureTLS_cases cfg)
    as [[Hca Hc] | [[Hca (inner & Hread & Hc)] | [Hca (pem & Hread & Hc)]]];
    rewrite Hc; simpl.
  2: { intros [= <-]. left. split; [done|]. by exists inner. }
  all: destruct (configureSASL_cases cfg)
    as [[Hn Hs] | [[Hn (e' & Hmech & Hs)] | [Hn (m & Hmech & Hs)]]];
    rewrite Hs; simpl; try discriminate.
  all: intros [= <-]; right; split; [done|]; split; [eauto|]; by exists e'.
Qed.

(** X6. After [InitializeKafkaBroker] the package-level broker is set
    exactly when the returned error is nil; when set it is the broker
    [NewKafkaBroker] returned; and the outcome does not depend on what
    the variable held before. *)
Theorem InitializeKafkaBroker_broker_iff_no_error
    (cfg : KafkaConfig) (old : option kafkaBroker) :
  (is_Some (fst (InitializeKafkaBroker D cfg old))
   <-> snd (InitializeKafkaBroker D cfg old) = None)
  /\ (forall b : kafkaBroker,
        fst (InitializeKafkaBroker D cfg old) = Some b
        <-> NewKafkaBroker D cfg = Ok b)
  /\ InitializeKafkaBroker D cfg old = InitializeKafkaBroker D cfg None.
Proof.
  unfold InitializeKafkaBroker.
  destruct (NewKafkaBroker D cfg) as [b0|e]; simpl.
  - split; [split; eauto|]. split; [|done].
    intros b. split; congruence.
  - split; [split; [intros [? ?]|]; discriminate|]. split; [|done].
    intros b. split; discriminate.
Qed.

(** X7. The error [InitializeKafkaBroker] returns is the error of
    [NewKafkaBroker] wrapped in "unable to initialize kafka: ": its
    message is that prefix followed by the inner message, and
    [errors.Is] finds in it exactly the errors it finds in the inner
    one. *)
Theorem InitializeKafkaBroker_error_chain
    (cfg : KafkaConfig) (old : option kafkaBroker) (e : error) :
  snd (InitializeKafkaBroker D cfg old) = Some e ->
  exists inner : error,
    NewKafkaBroker D cfg = Err inner
    /\ Error e = "unable to initialize kafka: " +:+ Error inner
    /\ forall target : sentinel, errors_Is e target = errors_Is inner target.
Proof.
  unfold InitializeKafkaBroker.
  destruct (NewKafkaBroker D cfg) as [b0|inner]; simpl; [discriminate|].
  intros [= <-]. exists inner. split; [done|]. split; [|done].
  simpl. by rewrite append_empty_r.
Qed.

End ConstructionFacts.

Lemma constructed_broker_channels_share_security_witness :
  dTLS (rcDialer (NewReader secured_config secured_broker "orders"))
    = tTLS (wTransport (NewWriter secured_config secured_broker))
  /\ dSASLMechanism (rcDialer (NewReader secured_config secured_broker "orders"))
     = tSASL (wTransport (NewWriter secured_config secured_broker))
  /\ dClientID (rcDialer (NewReader secured_config secured_broker "orders"))
     = tClientID (wTransport (NewWriter secured_config secured_broker))
  /\ tDial (wTransport (NewWriter secured_config secured_broker))
     = rcDialer (NewReader secured_config secured_broker "orders")
  /\ dTimeout (rcDialer (NewReader secured_config secured_broker "orders"))
     = 10000000000%Z
  /\ rcBrokers (NewReader secured_config secured_broker "orders")
     = wAddr (NewWriter secured_config secured_broker)
  /\ rcTopic (NewReader secured_config secured_broker "orders") = "orders"
  /\ rcStartOffset (NewReader secured_config secured_broker "orders")
     = kafka_LastOffset.
Proof.
  apply (constructed_broker_channels_share_security (sample_deps sample_fs)).
  reflexivity.
Defined.

Lemma NewKafkaBroker_TLS_iff_CA_witness :
  dTLS (dialer secured_broker) = None <-> CACert secured_config = "".
Proof.
  apply (NewKafkaBroker_TLS_iff_CA (sample_deps sample_fs)
           secured_config secured_broker).
  reflexivity.
Defined.

Lemma NewKafkaBroker_SASL_iff_mechanism_witness :
  dSASLMechanism (dialer secured_broker) = None
  <-> SaslMechanism (SASL secured_config) = "".
Proof.
  apply (NewKafkaBroker_SASL_iff_mechanism (sample_deps sample_fs)
           secured_config secured_broker).
  reflexivity.
Defined.

Lemma NewKafkaBroker_error_kinds_witness :
  (CACert gssapi_config <> ""
   /\ exists inner : error,
        ioutil_ReadFile (sample_deps sample_fs)
          (filepath_Clean (sample_deps sample_fs) (CACert gssapi_config))
        = Err inner
        /\ wrapf "kafka SASL error: "
             (wrapf "" UnknownSaslMechanismErr ": gssapi") ""
           = wrapf "unable to read kafka CA cert: " inner "")
  \/ (SaslMechanism (SASL gssapi_config) <> ""
      /\ (CACert gssapi_config = ""
          \/ exists pem : bytes,
               ioutil_ReadFile (sample_deps sample_fs)
                 (filepath_Clean (sample_deps sample_fs) (CACert gssapi_config))
               = Ok pem)
      /\ exists inner : error,
           createSASLMechanism (sample_deps sample_fs)
             (SaslMechanism (SASL gssapi_config))
             (Username (SASL gssapi_config)) (Password (SASL gssapi_config))
           = Err inner
           /\ wrapf "kafka SASL error: "
                (wrapf "" UnknownSaslMechanismErr ": gssapi") ""
              = wrapf "kafka SASL error: " inner "").
Proof.
  apply (NewKafkaBroker_error_kinds (sample_deps sample_fs) gssapi_config).
  reflexivity.
Defined.

Lemma InitializeKafkaBroker_error_chain_witness :
  exists inner : error,
    NewKafkaBroker (sample_deps sample_fs) gssapi_config = Err inner
    /\ Error (wrapf "unable to initialize kafka: "
                (wrapf "kafka SASL error: "
                   (wrapf "" UnknownSaslMechanismErr ": gssapi") "") "")
       = "unable to initialize kafka: " +:+ Error inner
    /\ forall target : sentinel,
         errors_Is (wrapf "unable to initialize kafka: "
                      (wrapf "kafka SASL error: "
                         (wrapf "" UnknownSaslMechanismErr ": gssapi") "") "")
           target
         = errors_Is inner target.
Proof.
  apply (InitializeKafkaBroker_error_chain (sample_deps sample_fs)
           gssapi_config (Some earlier_broker)).
  reflexivity.
Defined.

(** ** Send, over every batch *)

Section SendOutcomes.

Variable WriteMessages : list kafka_Message -> option error.

(** The three ways through [Send]. *)
Lemma Send_cases (ms : list GenericMessage) :
  (ms = [] /\ Send WriteMessages ms = (None, []))
  \/ (exists (m0 : GenericMessage) (rest : list GenericMessage),
        ms = m0 :: rest
        /\ Exists (fun m => Topic m <> Topic m0) rest
        /\ Send WriteMessages ms
           = (Some (Sentinel DifferentTopicErr), [EvNewWriter; EvWriterClose]))
  \/ (exists (m0 : GenericMessage) (rest : list GenericMessage),
        ms = m0 :: rest
        /\ Forall (fun m => Topic m = Topic m0) rest
        /\ Send WriteMessages ms
           = (match WriteMessages (KafkaMessage <$> ms) with
              | Some err => Some (wrapf "cannot send kafka messages(s): " err "")
              | None => None
              end,
              [EvNewWriter; EvWriteMessages (KafkaMessage <$> ms); EvWriterClose])).
Proof.
  destruct ms as [|m0 rest]; [by left|]. right.
  destruct (decide (Forall (fun m => Topic m = Topic m0) rest)) as [Hall|Hnot].
  - right. exists m0, rest. split; [done|]. split; [done|].
    assert (Hrun : Send_range (Topic m0) 0 (m0 :: rest)
                     (replicate (length (m0 :: rest)) kafka_Message_zero)
                   = Ok (KafkaMessage <$> (m0 :: rest))).
    { apply (Send_range_same (Topic m0) (m0 :: rest) []).
      - by constructor.
      - simpl. by rewrite length_replicate. }
    unfold Send. rewrite Hrun. by destruct (WriteMessages _).
  - left. exists m0, rest. split; [done|].
    apply not_Forall_Exists in Hnot; [|apply _].
    split; [done|]. unfold Send.
    rewrite Send_range_mixed; [done|]. by apply Exists_cons_tl.
Qed.

Lemma mixed_not_uniform (m0 : GenericMessage) (rest : list GenericMessage) (t : string) :
  Exists (fun m => Topic m <> Topic m0) rest ->
  Forall (fun m => Topic m = t) (m0 :: rest) ->
  False.
Proof.
  intros Hex Hall. inversion Hall as [|? ? H0 Hrest]; subst.
  apply Exists_exists in Hex as (m & Hin & Hne).
  rewrite Forall_forall in Hrest. by apply Hne, Hrest.
Qed.

(** X8. [Send] returns nil exactly when the batch is empty, or when all
    its messages have one topic and the transport accepted the batch. *)
Theorem Send_succeeds_iff (ms : list GenericMessage) :
  fst (Send WriteMessages ms) = None
  <-> ms = []
      \/ ((exists t : string, Forall (fun m => Topic m = t) ms)
          /\ WriteMessages (KafkaMessage <$> ms) = None).
Proof.
  destruct (Send_cases ms)
    as [[-> ->] | [(m0 & rest & -> & Hex & ->) | (m0 & rest & -> & Hall & ->)]];
    simpl.
  - split; [by left | done].
  - split; [done|]. intros [? | [[t Ht] _]]; [done|].
    destruct (mixed_not_uniform m0 rest t Hex Ht).
  - split.
    + intros Hnone. right. split.
      * exists (Topic m0). by constructor.
      * by destruct (WriteMessages _).
    + intros [? | [_ Hw]]; [done|]. simpl in Hw. by rewrite Hw.
Qed.

(** X9. [Send] hands at most one batch to the transport, and it is the
    whole input in wire form; it does so exactly when the batch is not
    empty and all its messages have one topic, whether or not the
    transport then fails. *)
Theorem Send_publishes_once_iff_uniform (ms : list GenericMessage) :
  (published (snd (Send WriteMessages ms)) = []
   \/ published (snd (Send WriteMessages ms)) = [KafkaMessage <$> ms])
  /\ (published (snd (Send WriteMessages ms)) = [KafkaMessage <$> ms]
      <-> ms <> [] /\ exists t : string, Forall (fun m => Topic m = t) ms).
Proof.
  destruct (Send_cases ms)
    as [[-> ->] | [(m0 & rest & -> & Hex & ->) | (m0 & rest & -> & Hall & ->)]];
    simpl.
  - split; [by left|]. split; [discriminate | by intros [? _]].
  - split; [by left|]. split; [discriminate|].
    intros [_ [t Ht]]. destruct (mixed_not_uniform m0 rest t Hex Ht).
  - split; [by right|]. split; [|done]. intros _. split; [done|].
    exists (Topic m0). by constructor.
Qed.

(** X10. [Send] makes a writer exactly when the batch is not empty, and
    then closes it exactly once, as the last thing the call does, on
    the mixed-topic return and after a failed publish as well; nothing
    but the writer is touched. *)
Theorem Send_writer_lifecycle (ms : list GenericMessage) :
  writer_opens (snd (Send WriteMessages ms)) = (if ms is [] then 0 else 1)
  /\ writer_closes (snd (Send WriteMessages ms)) = (if ms is [] then 0 else 1)
  /\ (ms <> [] ->
      head (snd (Send WriteMessages ms)) = Some EvNewWriter
      /\ last (snd (Send WriteMessages ms)) = Some EvWriterClose)
  /\ Forall (fun e => is_writer_event e = true) (snd (Send WriteMessages ms)).
Proof.
  destruct (Send_cases ms)
    as [[-> ->] | [(m0 & rest & -> & Hex & ->) | (m0 & rest & -> & Hall & ->)]];
    simpl; repeat split; try done; repeat constructor.
Qed.

(** X11. A batch that reaches the transport never mixes topics: each of
    its wire messages carries the topic of the first input message. *)
Theorem Send_published_single_topic
    (ms : list GenericMessage) (batch : list kafka_Message) (km : kafka_Message) :
  batch ∈ published (snd (Send WriteMessages ms)) ->
  km ∈ batch ->
  Topic <$> head ms = Some (kTopic km).
Proof.
  destruct (Send_cases ms)
    as [[-> ->] | [(m0 & rest & -> & Hex & ->) | (m0 & rest & -> & Hall & ->)]];
    simpl; intros Hbatch Hkm.
  - by apply elem_of_nil in Hbatch.
  - by apply elem_of_nil in Hbatch.
  - apply list_elem_of_singleton in Hbatch. subst batch.
    change (km ∈ KafkaMessage <$> (m0 :: rest)) in Hkm.
    apply list_elem_of_fmap in Hkm as (m & -> & Hin). simpl.
    apply elem_of_cons in Hin as [-> | Hin]; [done|].
    rewrite Forall_forall in Hall. by rewrite (Hall m Hin).
Qed.

(** X12. An error of [Send] is of one of two kinds: [DifferentTopicErr]
    itself, with nothing published, or the transport's error wrapped in
    "cannot send kafka messages(s): ", in which [errors.Is] finds
    exactly what it finds in the transport's error. *)
Theorem Send_error_kinds (ms : list GenericMessage) (e : error) :
  fst (Send WriteMessages ms) = Some e ->
  (e = Sentinel DifferentTopicErr
   /\ published (snd (Send WriteMessages ms)) = [])
  \/ (exists inner : error,
        WriteMessages (KafkaMessage <$> ms) = Some inner
        /\ e = wrapf "cannot send kafka messages(s): " inner ""
        /\ Error e = "cannot send kafka messages(s): " +:+ Error inner
        /\ forall target : sentinel, errors_Is e target = errors_Is inner target).
Proof.
  destruct (Send_cases ms)
    as [[-> ->] | [(m0 & rest & -> & Hex & ->) | (m0 & rest & -> & Hall & ->)]];
    simpl.
  - discriminate.
  - intros [= <-]. by left.
  - destruct (WriteMessages _) as [inner|] eqn:Hw; [|discriminate].
    intros [= <-]. right. exists inner. repeat split; try done.
    simpl. by rewrite append_empty_r.
Qed.

End SendOutcomes.

Lemma Send_published_single_topic_witness :
  Topic <$> head [sample_message "orders" "a"; sample_message "orders" "b"]
  = Some (kTopic (KafkaMessage (sample_message "orders" "b"))).
Proof.
  apply (Send_published_single_topic accepting_transport
           [sample_message "orders" "a"; sample_message "orders" "b"]
           [KafkaMessage (sample_message "orders" "a");
            KafkaMessage (sample_message "orders" "b")]).
  - apply list_elem_of_In. simpl. auto.
  - apply list_elem_of_In. simpl. auto.
Defined.

Lemma Send_error_kinds_witness :
  (wrapf "cannot send kafka messages(s): " (wrapf "write: " context_Canceled "") ""
   = Sentinel DifferentTopicErr
   /\ published (snd (Send cancelled_transport [sample_message "orders" "a"])) = [])
  \/ (exists inner : error,
        cancelled_transport (KafkaMessage <$> [sample_message "orders" "a"])
        = Some inner
        /\ wrapf "cannot send kafka messages(s): "
             (wrapf "write: " context_Canceled "") ""
           = wrapf "cannot send kafka messages(s): " inner ""
        /\ Error (wrapf "cannot send kafka messages(s): "
                    (wrapf "write: " context_Canceled "") "")
           = "cannot send kafka messages(s): " +:+ Error inner
        /\ forall target : sentinel,
             errors_Is (wrapf "cannot send kafka messages(s): "
                          (wrapf "write: " context_Canceled "") "") target
             = errors_Is inner target).
Proof.
  apply (Send_error_kinds cancelled_transport [sample_message "orders" "a"]).
  reflexivity.
Defined.

Example Send_cancelled_is_detectable :
  option_map (fun e => errors_Is e context_Canceled)
    (fst (Send cancelled_transport [sample_message "orders" "a"]))
  = Some true.
Proof. reflexivity. Qed.

(** ** Consume, over every run of the reader *)

Lemma reads_done_app (a b : list event) :
  reads_done (a ++ b) = reads_done a + reads_done b.
Proof. induction a as [|[] a IH]; simpl; by rewrite ?IH. Qed.

Lemma before_EOF_app (a b : list read_result) :
  before_EOF (a ++ b)
  = before_EOF a ++ (if existsb is_EOF a then [] else before_EOF b).
Proof.
  induction a as [|r a IH]; [done|]. simpl.
  destruct (is_EOF r); simpl; [done | by rewrite IH].
Qed.

Lemma delivered_app (a b : list read_result) :
  delivered (a ++ b) = delivered a ++ delivered b.
Proof. induction a as [|[msg|err] a IH]; simpl; by rewrite ?IH. Qed.

Lemma failures_app (a b : list read_result) :
  failures (a ++ b) = failures a ++ failures b.
Proof. induction a as [|[msg|err] a IH]; simpl; by rewrite ?IH. Qed.

Lemma without_transient_before_EOF (reads : list read_result) :
  delivered (before_EOF (without_transient reads)) = delivered (before_EOF reads)
  /\ failures (before_EOF (without_transient reads)) = []
  /\ existsb is_EOF (without_transient reads) = existsb is_EOF reads.
Proof.
  induction reads as [|[msg|err] reads (IH1 & IH2 & IH3)]; [done| |]; simpl.
  - by rewrite IH1, IH2, IH3.
  - destruct (errors_Is err io_EOF) eqn:Heof; simpl; rewrite ?Heof; simpl; done.
Qed.

Section ConsumeRuns.

Variable H : Type.
Variable handler : GenericMessage -> H -> H.

Lemma Consume_warnings (topic : string) (reads : list read_result) (h : H) :
  warnings (run_trace (Consume handler topic reads h))
  = failures (before_EOF reads).
Proof.
  rewrite Consume_trace. simpl. rewrite warnings_app, Consume_loop_warnings.
  destruct (existsb is_EOF reads); simpl; by rewrite app_nil_r.
Qed.

Lemma Consume_loop_after_EOF (pre post post' : list read_result) (r : read_result) :
  is_EOF r = true ->
  forall h, Consume_loop handler (pre ++ r :: post) h
            = Consume_loop handler (pre ++ r :: post') h.
Proof.
  intros Hr. induction pre as [|[msg|err] pre IH]; intros h; simpl.
  - destruct r as [msg|err]; [discriminate|]. simpl in Hr. by rewrite Hr.
  - by rewrite IH.
  - destruct (errors_Is err io_EOF); [done | by rewrite IH].
Qed.

Lemma Consume_loop_reads_done (reads : list read_result) :
  forall h,
    reads_done (run_trace (Consume_loop handler reads h))
    = length (handled (run_trace (Consume_loop handler reads h)))
      + length (warnings (run_trace (Consume_loop handler reads h)))
      + match run_status (Consume_loop handler reads h) with
        | Returned => 1
        | Blocked => 0
        end.
Proof.
  induction reads as [|[msg|err] reads IH]; intros h; simpl; [done | |].
  - rewrite IH. lia.
  - destruct (errors_Is err io_EOF); simpl; [done|]. rewrite IH. lia.
Qed.

(** X13. [Consume] returns exactly when some read reports
    end-of-stream; no other error, however often it comes, makes it
    return. *)
Theorem Consume_returns_iff_end_of_stream
    (topic : string) (reads : list read_result) (h : H) :
  run_status (Consume handler topic reads h) = Returned
  <-> exists r : read_result, r ∈ reads /\ is_EOF r = true.
Proof.
  unfold Consume. simpl. rewrite Consume_loop_status.
  destruct (existsb is_EOF reads) eqn:Hex.
  - apply existsb_exists in Hex as (r & Hin & Hr).
    split; [|done]. intros _. exists r. split; [|done]. by apply list_elem_of_In.
  - split; [discriminate|]. intros (r & Hin & Hr).
    assert (existsb is_EOF reads = true); [|congruence].
    apply existsb_exists. exists r. split; [|done]. by apply list_elem_of_In.
Qed.

(** X14. What the reader would give after a read that reported
    end-of-stream plays no part: the run is the same whatever follows. *)
Theorem Consume_ignores_reads_after_end_of_stream
    (topic : string) (pre post post' : list read_result) (r : read_result) (h : H) :
  is_EOF r = true ->
  Consume handler topic (pre ++ r :: post) h
  = Consume handler topic (pre ++ r :: post') h.
Proof.
  intros Hr. unfold Consume.
  by rewrite (Consume_loop_after_EOF pre post post' r Hr h).
Qed.

(** X15. Handler calls and warnings only grow as the reader gives
    more: those of a run are a prefix of those of any run that starts
    with the same reads. *)
Theorem Consume_handled_extends
    (topic : string) (reads more : list read_result) (h : H) :
  handled (run_trace (Consume handler topic reads h))
    `prefix_of` handled (run_trace (Consume handler topic (reads ++ more) h))
  /\ warnings (run_trace (Consume handler topic reads h))
    `prefix_of` warnings (run_trace (Consume handler topic (reads ++ more) h)).
Proof.
  destruct (Consume_delivers_in_order_aux H handler topic reads h) as [-> _].
  destruct (Consume_delivers_in_order_aux H handler topic (reads ++ more) h)
    as [-> _].
  rewrite !Consume_warnings, before_EOF_app, delivered_app, failures_app.
  split; apply prefix_app_r; done.
Qed.

(** X16. Every read that returned is accounted for: it was given to
    the handler, logged as a warning, or it is the end-of-stream that
    made [Consume] return. *)
Theorem Consume_accounts_for_every_read
    (topic : string) (reads : list read_result) (h : H) :
  reads_done (run_trace (Consume handler topic reads h))
  = length (handled (run_trace (Consume handler topic reads h)))
    + length (warnings (run_trace (Consume handler topic reads h)))
    + match run_status (Consume handler topic reads h) with
      | Returned => 1
      | Blocked => 0
      end.
Proof.
  pose proof (Consume_loop_reads_done reads h) as Hloop.
  rewrite Consume_trace.
  change (run_status (Consume handler topic reads h))
    with (run_status (Consume_loop handler reads h)).
  simpl. rewrite reads_done_app, handled_app, warnings_app, Hloop.
  destruct (existsb is_EOF reads); simpl; rewrite !app_nil_r; lia.
Qed.

(** X17. Failed reads that are only logged change nothing for the
    application: without them the handler is called with the same
    messages, the application ends in the same state and [Consume]
    returns or not as before; they only add warnings. *)
Theorem Consume_transient_failures_only_log
    (topic : string) (reads : list read_result) (h : H) :
  handled (run_trace (Consume handler topic (without_transient reads) h))
    = handled (run_trace (Consume handler topic reads h))
  /\ run_state (Consume handler topic (without_transient reads) h)
     = run_state (Consume handler topic reads h)
  /\ run_status (Consume handler topic (without_transient reads) h)
     = run_status (Consume handler topic reads h)
  /\ warnings (run_trace (Consume handler topic (without_transient reads) h)) = [].
Proof.
  destruct (without_transient_before_EOF reads) as (Hd & Hf & He).
  destruct (Consume_delivers_in_order_aux H handler topic reads h) as [-> ->].
  destruct (Consume_delivers_in_order_aux H handler topic
              (without_transient reads) h) as [-> ->].
  rewrite Consume_warnings, Hd, Hf.
  repeat split; try done.
  unfold Consume. simpl. by rewrite !Consume_loop_status, He.
Qed.

(** X18. [Consume] makes its reader first, for the topic it was given,
    and never touches a writer. *)
Theorem Consume_reader_only
    (topic : string) (reads : list read_result) (h : H) :
  head (run_trace (Consume handler topic reads h)) = Some (EvNewReader topic)
  /\ Forall (fun e => is_writer_event e = false)
       (run_trace (Consume handler topic reads h)).
Proof.
  split; [done|].
  rewrite Consume_trace. constructor; [done|].
  apply Forall_app. split.
  - clear topic. revert h.
    induction reads as [|[msg|err] reads IH]; intros h; simpl.
    + by repeat constructor.
    + repeat (constructor; [done|]). apply IH.
    + destruct (errors_Is err io_EOF); simpl; [by repeat constructor|].
      repeat (constructor; [done|]). apply IH.
  - destruct (existsb is_EOF reads); by repeat constructor.
Qed.

End ConsumeRuns.

Lemma Consume_ignores_reads_after_end_of_stream_witness :
  Consume recording_handler "orders"
    ([ReadOk wire_a] ++ ReadErr (Sentinel io_EOF) :: [ReadOk wire_b]) []
  = Consume recording_handler "orders"
      ([ReadOk wire_a] ++ ReadErr (Sentinel io_EOF) :: []) [].
Proof.
  apply (Consume_ignores_reads_after_end_of_stream _ recording_handler "orders"
           [ReadOk wire_a] [ReadOk wire_b] [] (ReadErr (Sentinel io_EOF)) []).
  reflexivity.
Defined.

Example Consume_deadline_is_not_end_of_stream :
  run_status (Consume recording_handler "orders"
                [ReadErr (Sentinel context_DeadlineExceeded); ReadOk wire_a] [])
  = Blocked.
Proof. reflexivity. Qed.

(** ** The sources client *)

Lemma filter_range_typed (auths : list AuthenticationRead) :
  Forall (fun x => is_Some (arResourceType x)) auths ->
  forall kept : list AuthenticationRead,
    filter_range auths kept
    = Returns (kept ++ filter (fun x => arResourceType x = Some "Application") auths).
Proof.
  induction 1 as [|a auths [ty Hty] _ IH]; intros kept; simpl.
  - by rewrite app_nil_r.
  - rewrite Hty. destruct (String.eqb_spec ty "Application") as [->|Hne].
    + rewrite IH, filter_cons_True by done. by rewrite <- app_assoc.
    + rewrite IH, filter_cons_False; [done|]. rewrite Hty. congruence.
Qed.

Lemma filter_range_untyped (auths : list AuthenticationRead) :
  Exists (fun x => arResourceType x = None) auths ->
  forall kept : list AuthenticationRead,
    filter_range auths kept = Panics nil_dereference.
Proof.
  induction 1 as [a auths Hnil | a auths _ IH]; intros kept; simpl.
  - by rewrite Hnil.
  - destruct (arResourceType a) as [ty|]; [|done].
    destruct (String.eqb ty "Application"); apply IH.
Qed.

Lemma typed_or_untyped (auths : list AuthenticationRead) :
  Forall (fun x => is_Some (arResourceType x)) auths
  \/ Exists (fun x => arResourceType x = None) auths.
Proof.
  induction auths as [|a auths [IH|IH]].
  - left. constructor.
  - destruct (arResourceType a) as [ty|] eqn:Hty.
    + left. constructor; [by rewrite Hty | done].
    + right. by constructor.
  - right. by constructor.
Qed.

(** X19. When every entry has a resource type and exactly one entry is
    of type "Application", [filterSourceAuthentications] returns that
    entry and a nil error, wherever it stands in the list and whatever
    the other entries are. *)
Theorem filterSourceAuthentications_unique
    (auths : list AuthenticationRead) (a : AuthenticationRead) :
  Forall (fun x => is_Some (arResourceType x)) auths ->
  filter (fun x => arResourceType x = Some "Application") auths = [a] ->
  filterSourceAuthentications (Some auths) = Returns (a, None).
Proof.
  intros Htyped Hone. unfold filterSourceAuthentications.
  by rewrite (filter_range_typed auths Htyped []), Hone.
Qed.

(** X20. When every entry has a resource type and more than one entry
    is of type "Application", [filterSourceAuthentications] returns the
    zero authentication and [MoreThenOneAuthenticationForSourceErr]. *)
Theorem filterSourceAuthentications_several (auths : list AuthenticationRead) :
  Forall (fun x => is_Some (arResourceType x)) auths ->
  1 < length (filter (fun x => arResourceType x = Some "Application") auths) ->
  filterSourceAuthentications (Some auths)
  = Returns (AuthenticationRead_zero, Some MoreThenOneAuthenticationForSourceErr).
Proof.
  intros Htyped Hmany. unfold filterSourceAuthentications.
  rewrite (filter_range_typed auths Htyped []). simpl.
  apply Nat.ltb_lt in Hmany. by rewrite Hmany.
Qed.

(** X21. [filterSourceAuthentications] panics instead of returning in
    exactly these cases: the pointer to the list is nil or an entry has
    no resource type (nil dereference), or no entry is of type
    "Application", the empty list included (index 0 out of range). *)
Theorem filterSourceAuthentications_panics_iff
    (authentications : option (list AuthenticationRead)) :
  (authentications = None
   \/ (exists auths, authentications = Some auths
                     /\ Exists (fun x => arResourceType x = None) auths)
   <-> filterSourceAuthentications authentications = Panics nil_dereference)
  /\ ((exists auths, authentications = Some auths
                     /\ Forall (fun x => is_Some (arResourceType x)) auths
                     /\ filter (fun x => arResourceType x = Some "Application") auths = [])
      <-> filterSourceAuthentications authentications
          = Panics (index_out_of_range 0 0))
  /\ forall p : panic,
       filterSourceAuthentications authentications = Panics p ->
       p = nil_dereference \/ p = index_out_of_range 0 0.
Proof.
  destruct authentications as [auths|]; simpl.
  2: { split; [split; [done | by left]|].
       split; [split; [by intros (? & ? & _) | discriminate]|].
       intros p [= <-]. by left. }
  destruct (typed_or_untyped auths) as [Htyped|Hnil].
  - rewrite (filter_range_typed auths Htyped []). simpl.
    assert (Hno : ~ Exists (fun x => arResourceType x = None) auths).
    { intros Hex. apply Exists_exists in Hex as (x & Hin & Hx).
      rewrite Forall_forall in Htyped. destruct (Htyped x Hin) as [ty Hty].
      congruence. }
    destruct (filter _ auths) as [|a [|a' kept]] eqn:Hf; simpl.
    + split; [split; [|discriminate]|].
      { intros [? | (auths' & [= <-] & Hex)]; [done | by destruct Hno]. }
      split; [split; [done|]|].
      { intros _. exists auths. done. }
      intros p [= <-]. by right.
    + split; [split; [|discriminate]|].
      { intros [? | (auths' & [= <-] & Hex)]; [done | by destruct Hno]. }
      split; [split; [|discriminate]|discriminate].
      intros (auths' & [= <-] & _ & Hempty). congruence.
    + split; [split; [|discriminate]|].
      { intros [? | (auths' & [= <-] & Hex)]; [done | by destruct Hno]. }
      split; [split; [|discriminate]|discriminate].
      intros (auths' & [= <-] & _ & Hempty). congruence.
  - rewrite (filter_range_untyped auths Hnil []).
    split; [split; [done|]|].
    { intros _. right. by exists auths. }
    split; [split; [|discriminate]|].
    { intros (auths' & [= <-] & Htyped & _).
      apply Exists_exists in Hnil as (x & Hin & Hx).
      rewrite Forall_forall in Htyped. destruct (Htyped x Hin) as [ty Hty].
      congruence. }
    intros p [= <-]. by left.
Qed.

Lemma filterSourceAuthentications_unique_witness :
  filterSourceAuthentications (Some [source_auth; application_auth; source_auth])
  = Returns (application_auth, None).
Proof.
  apply filterSourceAuthentications_unique.
  - repeat constructor; by eexists.
  - reflexivity.
Defined.

Lemma filterSourceAuthentications_several_witness :
  filterSourceAuthentications (Some [application_auth; source_auth; application_auth])
  = Returns (AuthenticationRead_zero, Some MoreThenOneAuthenticationForSourceErr).
Proof.
  apply filterSourceAuthentications_several.
  - repeat constructor; by eexists.
  - vm_compute. lia.
Defined.

Example filterSourceAuthentications_empty_list :
  filterSourceAuthentications (Some []) = Panics (index_out_of_range 0 0).
Proof. reflexivity. Qed.

Example filterSourceAuthentications_untyped_entry :
  filterSourceAuthentications (Some [application_auth; untyped_auth])
  = Panics nil_dereference.
Proof. reflexivity. Qed.

Lemma find_provisioning_first (pre post : list ApplicationType) (t : ApplicationType) :
  Forall (fun x => atName x <> provisioning_name) pre ->
  atName t = provisioning_name ->
  find_provisioning (pre ++ t :: post) = Some t.
Proof.
  intros Hpre Ht. induction Hpre as [|x pre Hx _ IH]; simpl.
  - by rewrite Ht, String.eqb_refl.
  - apply String.eqb_neq in Hx. by rewrite Hx.
Qed.

Lemma find_provisioning_none (data : list ApplicationType) :
  find_provisioning data = None
  <-> Forall (fun x => atName x <> provisioning_name) data.
Proof.
  induction data as [|x data IH]; simpl; [by split; [constructor|]|].
  destruct (String.eqb_spec (atName x) provisioning_name) as [Heq|Hne].
  - split; [discriminate|]. intros Hall. by inversion Hall.
  - rewrite IH. split; [by constructor|]. intros Hall. by inversion Hall.
Qed.

Lemma loadAppId_one_request
    (IsHTTPStatus2xx : Z -> bool) (json_Decode : bytes -> sresult (list ApplicationType))
    (call : sresult http_Response) :
  requests (snd (loadAppId IsHTTPStatus2xx json_Decode call)) = 1.
Proof.
  unfold loadAppId. destruct call as [resp|err]; simpl; [|done].
  destruct (IsHTTPStatus2xx (respStatusCode resp)); simpl; [|done].
  destruct (json_Decode (respBody resp)) as [data|err]; simpl; [|done].
  by destruct (find_provisioning data).
Qed.

Section SourcesFacts.

Variable IsHTTPStatus2xx : Z -> bool.
Variable json_Decode : bytes -> sresult (list ApplicationType).

(** X22. From a 2xx response whose body decodes, [loadAppId] returns
    the id of the first type named "/insights/platform/provisioning";
    types before it with other names and anything after it, further
    types of that name included, play no part. *)
Theorem loadAppId_first_match
    (resp : http_Response) (pre post : list ApplicationType) (t : ApplicationType) :
  IsHTTPStatus2xx (respStatusCode resp) = true ->
  json_Decode (respBody resp) = SOk (pre ++ t :: post) ->
  Forall (fun x => atName x <> provisioning_name) pre ->
  atName t = provisioning_name ->
  fst (loadAppId IsHTTPStatus2xx json_Decode (SOk resp)) = SOk (atId t).
Proof.
  intros H2xx Hdec Hpre Ht. unfold loadAppId.
  by rewrite H2xx, Hdec, (find_provisioning_first pre post t Hpre Ht).
Qed.

(** X23. From a 2xx response whose body decodes, [loadAppId] returns
    an id exactly when some type has the provisioning name; when none
    has, the empty list included, it returns the not-found error. *)
Theorem loadAppId_found_iff
    (resp : http_Response) (data : list ApplicationType) :
  IsHTTPStatus2xx (respStatusCode resp) = true ->
  json_Decode (respBody resp) = SOk data ->
  ((exists id : string,
       fst (loadAppId IsHTTPStatus2xx json_Decode (SOk resp)) = SOk id)
   <-> Exists (fun x => atName x = provisioning_name) data)
  /\ (Forall (fun x => atName x <> provisioning_name) data ->
      fst (loadAppId IsHTTPStatus2xx json_Decode (SOk resp))
      = SErr (NotFoundError
                "application type 'provisioning' has not been found in types supported by sources")).
Proof.
  intros H2xx Hdec. unfold loadAppId. rewrite H2xx, Hdec. simpl.
  destruct (find_provisioning data) as [t|] eqn:Hfind; simpl.
  - assert (Hex : Exists (fun x => atName x = provisioning_name) data).
    { destruct (decide (Exists (fun x => atName x = provisioning_name) data))
        as [Hex|Hno]; [done|].
      apply not_Exists_Forall in Hno; [|apply _].
      apply find_provisioning_none in Hno. congruence. }
    split; [split; [done | by eexists]|].
    intros Hall. apply find_provisioning_none in Hall. congruence.
  - apply find_provisioning_none in Hfind.
    split; [|done]. split; [by intros [id ?]|].
    intros Hex. apply Exists_exists in Hex as (x & Hin & Hx).
    rewrite Forall_forall in Hfind. by destruct (Hfind x Hin).
Qed.

(** X24. Every call of [loadAppId] sends exactly one request, and it
    closes the response body exactly when a response came back with a
    2xx status: after a failed request there is no body, and after any
    other status the body is left open. *)
Theorem loadAppId_request_and_body (call : sresult http_Response) :
  requests (snd (loadAppId IsHTTPStatus2xx json_Decode call)) = 1
  /\ body_closes (snd (loadAppId IsHTTPStatus2xx json_Decode call))
     = match call with
       | SOk resp => if IsHTTPStatus2xx (respStatusCode resp) then 1 else 0
       | SErr _ => 0
       end.
Proof.
  split; [apply loadAppId_one_request|].
  unfold loadAppId. destruct call as [resp|err]; simpl; [|done].
  destruct (IsHTTPStatus2xx (respStatusCode resp)); simpl; [|done].
  destruct (json_Decode (respBody resp)) as [data|err]; simpl; [|done].
  by destruct (find_provisioning data).
Qed.

End SourcesFacts.

(** X25. When the status of the response is not 2xx, [loadAppId]
    returns an error in which [errors.Is] finds
    [ApplicationTypesFetchUnsuccessful], the body is never decoded, and
    the outcome is the same whatever the body holds and whatever the
    decoder would make of it. *)
Theorem loadAppId_unexpected_status
    (IsHTTPStatus2xx : Z -> bool)
    (decode decode' : bytes -> sresult (list ApplicationType))
    (code : Z) (status : string) (body body' : bytes) :
  IsHTTPStatus2xx code = false ->
  (exists e : sources_error,
      fst (loadAppId IsHTTPStatus2xx decode (SOk (mkResponse code status body)))
      = SErr e
      /\ sources_Is e ApplicationTypesFetchUnsuccessful = true)
  /\ (SrcDecodeBody
      ∉ snd (loadAppId IsHTTPStatus2xx decode (SOk (mkResponse code status body))))
  /\ loadAppId IsHTTPStatus2xx decode (SOk (mkResponse code status body))
     = loadAppId IsHTTPStatus2xx decode' (SOk (mkResponse code status body')).
Proof.
  intros Hcode. unfold loadAppId. simpl. rewrite Hcode. simpl.
  split; [by eexists|]. split; [|done].
  intros Hin. apply list_elem_of_In in Hin. simpl in Hin.
  repeat (destruct Hin as [Hin|Hin]; [discriminate|]). done.
Qed.

Section CacheFacts.

Variable IsHTTPStatus2xx : Z -> bool.
Variable json_Decode : bytes -> sresult (list ApplicationType).
Variable Cache : Type.
Variable cache_AppTypeId : Cache -> option string.
Variable cache_SetAppTypeId : string -> Cache -> Cache.

(** The cache gives back what was stored in it. *)
Hypothesis cache_keeps :
  forall (v : string) (c : Cache), cache_AppTypeId (cache_SetAppTypeId v c) = Some v.

(** X26. With a cache that gives back what was stored, once
    [GetProvisioningTypeId] has returned an id, the next call on the
    cache it left returns the same id, sends no request and logs
    nothing, whatever the server would answer by then. *)
Theorem GetProvisioningTypeId_second_call_cached
    (c c' : Cache) (call call' : sresult http_Response)
    (id : string) (evs : list sources_event) :
  GetProvisioningTypeId IsHTTPStatus2xx json_Decode Cache
    cache_AppTypeId cache_SetAppTypeId c call = (SOk id, c', evs) ->
  GetProvisioningTypeId IsHTTPStatus2xx json_Decode Cache
    cache_AppTypeId cache_SetAppTypeId c' call' = (SOk id, c', []).
Proof.
  unfold GetProvisioningTypeId.
  destruct (cache_AppTypeId c) as [cached|] eqn:Hc.
  - intros [= <- <- <-]. by rewrite Hc.
  - destruct (loadAppId IsHTTPStatus2xx json_Decode call) as [[id0|e] evs0];
      [|discriminate].
    intros [= <- <- <-]. by rewrite cache_keeps.
Qed.

End CacheFacts.

Section CacheMisses.

Variable IsHTTPStatus2xx : Z -> bool.
Variable json_Decode : bytes -> sresult (list ApplicationType).
Variable Cache : Type.
Variable cache_AppTypeId : Cache -> option string.
Variable cache_SetAppTypeId : string -> Cache -> Cache.

(** X27. [GetProvisioningTypeId] contacts the server exactly when the
    cache has no id: on a hit it returns the cached id with no event
    and leaves the cache as it is, on a miss it sends one request. *)
Theorem GetProvisioningTypeId_requests_iff_miss
    (c : Cache) (call : sresult http_Response) :
  requests (snd (GetProvisioningTypeId IsHTTPStatus2xx json_Decode Cache
                   cache_AppTypeId cache_SetAppTypeId c call))
    = (if cache_AppTypeId c is Some _ then 0 else 1)
  /\ forall id : string,
       cache_AppTypeId c = Some id ->
       GetProvisioningTypeId IsHTTPStatus2xx json_Decode Cache
         cache_AppTypeId cache_SetAppTypeId c call = (SOk id, c, []).
Proof.
  unfold GetProvisioningTypeId.
  destruct (cache_AppTypeId c) as [cached|] eqn:Hc.
  - split; [done|]. by intros id [= <-].
  - split; [|discriminate].
    pose proof (loadAppId_one_request IsHTTPStatus2xx json_Decode call) as Hreq.
    by destruct (loadAppId IsHTTPStatus2xx json_Decode call) as [[id0|e] evs0].
Qed.

(** X28. A failure of [GetProvisioningTypeId] is never cached: the
    cache was empty, it is left exactly as it was, and the error is the
    one [loadAppId] returned, not wrapped; the cache is written only
    with an id that [loadAppId] has just returned. *)
Theorem GetProvisioningTypeId_failure_not_cached
    (c c' : Cache) (call : sresult http_Response)
    (r : sresult string) (evs : list sources_event) :
  GetProvisioningTypeId IsHTTPStatus2xx json_Decode Cache
    cache_AppTypeId cache_SetAppTypeId c call = (r, c', evs) ->
  (forall e : sources_error,
      r = SErr e ->
      c' = c /\ cache_AppTypeId c = None
      /\ loadAppId IsHTTPStatus2xx json_Decode call = (SErr e, evs))
  /\ (c' = c
      \/ exists id : string,
           r = SOk id /\ c' = cache_SetAppTypeId id c
           /\ fst (loadAppId IsHTTPStatus2xx json_Decode call) = SOk id).
Proof.
  unfold GetProvisioningTypeId.
  destruct (cache_AppTypeId c) as [cached|] eqn:Hc.
  - intros [= <- <- <-]. split; [discriminate | by left].
  - destruct (loadAppId IsHTTPStatus2xx json_Decode call) as [[id0|e0] evs0];
      intros [= <- <- <-].
    + split; [discriminate|]. right. by exists id0.
    + split; [|by left]. by intros e [= <-].
Qed.

End CacheMisses.

Lemma loadAppId_first_match_witness :
  fst (loadAppId sample_2xx sample_decode ok_response) = SOk "5".
Proof.
  apply (loadAppId_first_match sample_2xx sample_decode
           (mkResponse 200 "200 OK" (list_byte_of_string "{}"))
           [mkApplicationType "1" "/insights/platform/cost-management"]
           [mkApplicationType "9" "/insights/platform/provisioning"]
           (mkApplicationType "5" "/insights/platform/provisioning")).
  - reflexivity.
  - reflexivity.
  - repeat constructor. discriminate.
  - reflexivity.
Defined.

Lemma loadAppId_found_iff_witness :
  (exists id : string,
      fst (loadAppId sample_2xx sample_decode ok_response) = SOk id)
  <-> Exists (fun x => atName x = provisioning_name) sample_types.
Proof.
  apply (loadAppId_found_iff sample_2xx sample_decode
           (mkResponse 200 "200 OK" (list_byte_of_string "{}")) sample_types).
  - reflexivity.
  - reflexivity.
Defined.

Lemma loadAppId_unexpected_status_witness :
  loadAppId sample_2xx sample_decode unavailable_response
  = loadAppId sample_2xx (fun _ => SOk []) 
      (SOk (mkResponse 503 "503 Service Unavailable" (list_byte_of_string "{}"))).
Proof.
  apply (loadAppId_unexpected_status sample_2xx sample_decode (fun _ => SOk [])
           503 "503 Service Unavailable" [] (list_byte_of_string "{}")).
  reflexivity.
Defined.

Lemma GetProvisioningTypeId_second_call_cached_witness :
  GetProvisioningTypeId sample_2xx sample_decode (option string)
    slot_get slot_set (Some "5") unavailable_response
  = (SOk "5", Some "5", []).
Proof.
  apply (GetProvisioningTypeId_second_call_cached sample_2xx sample_decode
           (option string) slot_get slot_set ltac:(reflexivity)
           None (Some "5") ok_response unavailable_response "5"
           (snd (loadAppId sample_2xx sample_decode ok_response))).
  reflexivity.
Defined.

Lemma GetProvisioningTypeId_failure_not_cached_witness :
  @None string = None
  /\ slot_get None = None
  /\ loadAppId sample_2xx sample_decode unavailable_response
     = (SErr (wrapped "" ApplicationTypesFetchUnsuccessful
                ", status: '503 Service Unavailable'"),
        snd (loadAppId sample_2xx sample_decode unavailable_response)).
Proof.
  apply (proj1 (GetProvisioningTypeId_failure_not_cached sample_2xx sample_decode
                  (option string) slot_get slot_set None None unavailable_response
                  (SErr (wrapped "" ApplicationTypesFetchUnsuccessful
                           ", status: '503 Service Unavailable'"))
                  (snd (loadAppId sample_2xx sample_decode unavailable_response))
                  eq_refl)).
  reflexivity.
Defined.
